(* ===== verification/_CoqProject ===== *)
-Q . S2P
Prelude.v
JsValue.v
JsObject.v
Json.v
JsonFuel.v
JsonText.v
Types.v
GeminiService.v
App.v
Discipline.v
View.v
CheatSheet.v
Page.v
EndToEnd.v
