(* ===== verification/Prelude.v ===== *)
(** * DrissionPage Playground: a verification development

    ** The program

    The repository is a React page ([src/App.tsx]) that lets a user paste
    HTML, type a DrissionPage locator and see the matching elements. No
    code of the repository matches locators: [processSelector]
    ([src/geminiService.ts]) sends the HTML and the locator to a language
    model with a system prompt and a JSON response schema, parses the
    reply with [JSON.parse] and reshapes it into the [ProcessingResult] of
    [src/types.ts] ([elements], [count], [selectorUsed], [error]);
    [fetchUrlSimulated] asks the model for a page. [App] keeps one
    [AppState], calls the two services from [handleRunSelector] and
    [handleFetch], and renders the state; [CheatSheet] is a static list.
    The parts interact through calls and one shared state: the handlers
    write the state with functional updates when the awaited call settles.

    ** The files

    - [Prelude] (this file): the notation [do x <- m; k] of the exception
      monad [E + A], [mapM] ([Array.prototype.map] with a throwing
      callback), [foldM] ([reduce]), the keys of a list in order of first
      occurrence and the value of a key's last occurrence
      ([first_occurrences], [last_value]), tactics, hint databases [pg]
      and [pg_rw], and their lemmas.
    - [JsValue]: the JavaScript values the service handles ([jsval], with
      its nested induction principle and [EqDecision]), ToBoolean
      ([truthy]), the [||] operator ([js_or]), Number::toString,
      array-index keys ([array_index], bounded by [2^32 - 1]),
      ToPropertyKey ([to_property_key]), the UTF-16 length of a string
      ([utf16_length]) and property reads ([get]).
    - [JsObject]: own-property lists in creation order ([props_set] is
      CreateDataProperty), the [[OwnPropertyKeys]] order ([own_keys]:
      array indices ascending, then creation order), [Object.entries],
      the spread ([copy_data_properties]), and the accumulator of [reduce]
      with its prototype ([ordinary_set], including the [__proto__]
      setter of [Object.prototype]).
    - [Json]: [JSON.parse] for the values modelled (numbers whose
      value is an integer of magnitude at most [2^53], with or without
      fraction and exponent; every string escape, the character of a
      [\u] escape or surrogate pair written in UTF-8 by [utf8_encode]),
      with fuel [2 * length + 2].
    - [JsonFuel]: what each step of the parser consumes, its unfolding
      equations, and the adequacy of its fuel: beyond [2 * length + 1]
      more fuel never changes the answer ([parse_fuel_adequate]).
    - [JsonText]: [JSON.stringify] ([serialize], QuoteJSONString,
      Number::toString) and the round trip [parse_stringify]: the text of
      a value is read back by [Json.parse] as the value [JSON.parse]
      returns ([json_value]). It is the text of the model's reply in the
      end-to-end theorems C2 and C29.
    - [Types]: [ExtractedElement], [ProcessingResult], [AppState] of
      [types.ts], and [typed_element], the declared view of a value.
    - [GeminiService]: the request ([SYSTEM_INSTRUCTION],
      [selector_contents], [responseSchema] and its [conforms] relation),
      the reshaping ([attr_step], [reshape_attributes],
      [reshape_element], [reshape_result]), [processSelector] with its
      [catch] ([error_result]) and [fetchUrlSimulated]. The model's
      answer is an input ([Reply]); [JSON.parse] is a parameter, so the
      theorems hold for any parser and the witnesses use [Json.parse].
    - [App]: the component as a state machine: a [World] is the
      [AppState] with the list of awaited calls ([Pending]); [step] is one
      [Event] (an edit, a tab, a click of an enabled button, a key, or the
      settling of any awaited call with any reply); [reachable] starts
      from [mounted], the state after the initial [useEffect].
    - [Discipline]: [App.step] restricted to the events of a user who
      never presses Enter while a call is loading.
    - [View]: the page of [App.tsx] as functions of the state: the
      controls and workspace (lines 90-167, [controls]: inputs, buttons
      disabled while loading, tabs, the source editor or the raw-HTML
      preview) and the results panel (lines 170-227, [results_panel]):
      the badge, the spinner, one [Card] per element ([render_card],
      [render_cards]) or "No matches found"; [card_of] is the card of an
      element of the declared type. A React child is rendered by
      [render_child], which fails on a plain object as React throws; the
      page has no error boundary, so [None] is a blank page.
    - [CheatSheet]: the eight examples of [CheatSheet.tsx] ([items]) and
      the panel that lists them ([render]).
    - [Page]: the whole tree [App] returns (lines 62-246, [page]): the
      header, the controls, the results panel, the cheat sheet and the
      status bar, whose count is [html.length.toLocaleString()]
      ([utf16_length], then [to_locale_string]: digits grouped by three
      with a separator).
    - [EndToEnd]: the components composed, from the mount through the
      model's answer, [processSelector], [resume] and the results panel
      to the whole page.

    ** The theorems

    - The service (GeminiService): a reply conforming to the schema is
      reshaped without exception into well-typed elements (C1); a reply
      that is the JSON text of elements, as the schema describes them,
      comes back from [processSelector] as those elements (C2, through
      [Json.parse] and the round trip of [JsonText]); the returned
      [count] and [selectorUsed] are the model's unless falsy, so
      [count = elements.length] and the echo of the locator are not
      guaranteed (C3, C4); the [reduce] of the attributes keeps each name
      once, at its first occurrence, with its last value, and drops
      [__proto__] through the setter of [Object.prototype] (C5); every
      error result is the fixed one (C13); a reply without text is an
      empty result, not an error (C14); [null] and ill-typed replies end
      in the error result (C15); the request does not determine the HTML
      and locator it carries (C20); a reply in a Markdown code fence is
      the error result (C22).
    - The component (App), by induction on [reachable]: [isLoading]
      implies a call in flight (C6); every call in flight was started with
      non-empty arguments (C7); every result on screen is
      [processSelector]'s answer for a non-empty HTML and locator (C23);
      and by explicit event sequences: the spinner is cleared while a
      call is still in flight (C8), replies settling out of order leave a
      stale result (C9), the number of calls in flight is unbounded
      (C10), an empty locator is a no-op (C11), a settling fetch
      overwrites any edit made meanwhile (C12); C8, C9 and C12 hold
      whatever the replies are; from every reachable state, settling the
      calls in flight with any replies brings the page to rest (C24,
      liveness).
    - The component used as its buttons allow (Discipline): without Enter
      pressed while loading, at most one call is in flight and the
      spinner shows exactly while one is (C27, by induction on
      [reachable_disciplined]), so C8, C9 and C10 come from the Enter key
      alone; the textarea, not disabled while loading, still lets the
      page come to rest with the answer for an HTML replaced during the
      run (C28).
    - The page (View): the attribute rows of a card list the array-index
      names first, by numeric value, then the others in order of first
      occurrence, each with its last value (C16); a result without
      elements shows its count over "No matches found" whatever its
      [error] holds, so an error is shown as an empty match (C17);
      well-typed results render (C18); an element whose [tag] is an
      object blanks the page (C19); a fetch reply is set unsanitized as
      the preview's [innerHTML] (C21).
    - The cheat sheet (CheatSheet): each locator it shows, typed and run,
      is sent to the model as it is (C25).
    - The whole page (Page): while every locator reply whose text is
      JSON conforms to the schema, the page never goes blank, whatever
      the events and their order (C26, by induction on
      [reachable_honest]); C19 shows the blank page otherwise.
    - The whole path (EndToEnd): the JSON text of elements answered to
      the mount's run is shown as the badge with the count and one card
      per element, in order, with its tag, number, text (or "No direct
      text"), attributes and HTML (C29).

    ** Bounds and fuel

    Numbers are integers ([Z]). [Json.parse] reads a JSON number, with
    its fraction and exponent, when its value is an integer of magnitude
    at most [2^53]: the double [JSON.parse] computes holds it exactly, so
    the [Z] is the double's value, and Number::toString writes it without
    an exponent. Other numbers are refused rather than rounded: a reply
    holding one takes the error path in the model where the program
    would go on with a double; the schema's [count] is an integer. An
    exponent above [16] on a nonzero number is refused without computing
    [10^e]. Array indices are bounded by [2^32 - 1] as in the
    specification. [Json.parse] runs with fuel [2 * length + 2];
    [JsonFuel.parse_fuel_adequate] shows that beyond [2 * length + 1]
    more fuel never changes the answer (a value consumes at least one
    character, a member five), so the bound is never the reason a text
    is refused; [JsonText.serialize_reads] shows that the texts
    [JSON.stringify] writes are read back.

    ** Not modelled

    The language model itself (an oracle: any [Reply]); markup, icons
    and styling; [console.error]. Strings are the UTF-8 bytes of their
    text: [html.length] counts UTF-16 code units ([utf16_length]), but
    an index read or the spread of a string reads bytes (only for a
    string element, which the schema excludes), and a lone surrogate,
    which UTF-8 cannot hold, is refused by [Json.parse]. Locales that do
    not group digits by three (en-IN). Numbers that are not integers of
    magnitude at most [2^53] (the doubles [JSON.parse] rounds): they
    would need IEEE 754 arithmetic and Number::toString's shortest
    round-trip digits, which the program never computes with (it only
    shows the count). React's unmounting of a blank page: the model
    keeps stepping the state after a render fails, where React would
    leave the page blank for good; C26 shows this never happens while
    the model honours its schema. The locator engine of the
    specification (parser, document model, matcher, formatter) has no
    code in the repository: the model stands in for it. *)

From stdpp Require Export base list strings sorting sets.
From Stdlib Require Export ZArith.

(** ** Scope of the development *)

Declare Scope pg_scope.
Delimit Scope pg_scope with pg.

(** ** The exception monad

    JavaScript code that may throw is modelled as a function returning
    [E + A]: [inl e] is an exception in flight, [inr a] a normal result.
    [do x <- m ; k] propagates the exception, as a JavaScript statement
    sequence does when [m] throws. *)

Notation "'do' x <- m ; k" :=
  (match m with inl e => inl e | inr x => k end)
  (at level 60, x name, m at next level, right associativity) : pg_scope.

Open Scope pg_scope.

(** [Array.prototype.map] with a callback that may throw: the callback runs
    on the elements from left to right and the first exception aborts the
    whole call. *)
Fixpoint mapM {E A B} (f : A -> E + B) (l : list A) : E + list B :=
  match l with
  | [] => inr []
  | x :: l' => do y <- f x; do ys <- mapM f l'; inr (y :: ys)
  end.

(** [Array.prototype.reduce] with an initial value and a callback that may
    throw: the accumulator is threaded from left to right. *)
Fixpoint foldM {E A B} (f : B -> A -> E + B) (acc : B) (l : list A) : E + B :=
  match l with
  | [] => inr acc
  | x :: l' => do acc' <- f acc x; foldM f acc' l'
  end.

(** ** Tactics *)

Ltac invc H := inversion H; subst; clear H.

(** Case analysis on the first [match] the goal scrutinises, keeping the
    equation. *)
Ltac case_throw :=
  match goal with
  | |- context [match ?m with inl _ => _ | inr _ => _ end] =>
      let E := fresh "Ethrow" in destruct m eqn:E
  end.

(** ** Hint databases *)

Create HintDb pg discriminated.
Create Rewrite HintDb pg_rw.

(** ** Generic lemmas on [mapM] and [foldM] *)

Section monadic_lists.
Context {E A B : Type}.

Lemma mapM_length (f : A -> E + B) l ys :
  mapM f l = inr ys -> length ys = length l.
Proof.
  revert ys; induction l as [|x l IH]; intros ys H; simpl in H.
  - by invc H.
  - destruct (f x); [done|]. destruct (mapM f l) eqn:Hl; [done|].
    invc H. simpl. by rewrite (IH l0).
Qed.

Lemma mapM_pure (f : A -> E + B) (g : A -> B) l :
  (forall x, x ∈ l -> f x = inr (g x)) -> mapM f l = inr (map g l).
Proof.
  induction l as [|x l IH]; intros Hf; simpl; [done|].
  rewrite Hf by set_solver. rewrite IH by set_solver. done.
Qed.

Lemma mapM_inl (f : A -> E + B) l e :
  mapM f l = inl e -> exists x, x ∈ l /\ f x = inl e.
Proof.
  induction l as [|x l IH]; simpl; [done|].
  destruct (f x) eqn:Hx.
  - intros [= ->]. exists x. split; [set_solver|done].
  - destruct (mapM f l) eqn:Hl; [|done]. intros [= ->].
    destruct (IH eq_refl) as (y & Hy & Hfy). exists y. split; [set_solver|done].
Qed.

Lemma mapM_inr_inv (f : A -> E + B) l ys :
  mapM f l = inr ys -> Forall2 (fun x y => f x = inr y) l ys.
Proof.
  revert ys; induction l as [|x l IH]; intros ys H; simpl in H.
  - invc H. constructor.
  - destruct (f x) eqn:Hx; [done|]. destruct (mapM f l) eqn:Hl; [done|].
    invc H. constructor; auto.
Qed.

Lemma mapM_Forall2 (f : A -> E + B) (Q : A -> B -> Prop) l :
  (forall x, x ∈ l -> exists y, f x = inr y /\ Q x y) ->
  exists ys, mapM f l = inr ys /\ Forall2 Q l ys.
Proof.
  induction l as [|x l IH]; intros Hf; simpl; [by exists []|].
  destruct (Hf x) as (y & -> & Hy); [set_solver|].
  destruct IH as (ys & -> & Hys); [intros z Hz; apply Hf; set_solver|].
  exists (y :: ys). simpl. auto.
Qed.

Lemma mapM_Forall (f : A -> E + B) (Q : B -> Prop) l :
  (forall x, x ∈ l -> exists y, f x = inr y /\ Q y) ->
  exists ys, mapM f l = inr ys /\ Forall Q ys /\ length ys = length l.
Proof.
  intros Hf. destruct (mapM_Forall2 f (fun _ y => Q y) l Hf) as (ys & Hm & H2).
  exists ys. split; [done|]. split.
  - clear Hm Hf. induction H2 as [|x y l' ys' Hxy _ IH]; constructor; auto.
  - symmetry. by eapply Forall2_length.
Qed.

Lemma mapM_fails (f : A -> E + B) l x e :
  x ∈ l -> f x = inl e -> exists e', mapM f l = inl e'.
Proof.
  induction l as [|y l IH]; intros Hx Hf; [set_solver|]. simpl.
  destruct (f y) as [e'|b] eqn:Hy; [by exists e'|].
  apply elem_of_cons in Hx as [->|Hx]; [congruence|].
  destruct (IH Hx Hf) as [e' ->]. by exists e'.
Qed.

Lemma mapM_map {C} (f : A -> E + B) (g : C -> A) l :
  mapM f (map g l) = mapM (fun x => f (g x)) l.
Proof. induction l as [|x l IH]; simpl; [done|]. by rewrite IH. Qed.

Lemma foldM_pure (f : B -> A -> E + B) (g : B -> A -> B) acc l :
  (forall b x, x ∈ l -> f b x = inr (g b x)) ->
  foldM f acc l = inr (fold_left g l acc).
Proof.
  revert acc; induction l as [|x l IH]; intros acc Hf; simpl; [done|].
  rewrite Hf by set_solver. apply IH. intros b y Hy. apply Hf. set_solver.
Qed.

Lemma foldM_app (f : B -> A -> E + B) acc l1 l2 :
  foldM f acc (l1 ++ l2) = (do b <- foldM f acc l1; foldM f b l2).
Proof.
  revert acc; induction l1 as [|x l1 IH]; intros acc; simpl; [done|].
  destruct (f acc x); [done|]. apply IH.
Qed.
End monadic_lists.

Lemma Forall2_map_eq {A B C} (h : B -> C) (k : A -> C) l ys :
  Forall2 (fun x y => h y = k x) l ys -> map h ys = map k l.
Proof. induction 1; simpl; f_equal; auto. Qed.

Lemma map_Some_Forall2 {A B} (f : A -> option B) l1 l2 :
  map f l1 = map Some l2 -> Forall2 (fun x y => f x = Some y) l1 l2.
Proof.
  revert l2; induction l1 as [|x l1 IH]; intros [|y l2]; simpl; try done.
  intros [= H1 H2]. constructor; [done|]. by apply IH.
Qed.

(** ** Generic lemmas on [omap] *)

Section omap_lemmas.
Context {A B C : Type}.

Lemma omap_fmap_ext (f : A -> option C) (g : A -> option B) (h : B -> C) (l : list A) :
  (forall x, x ∈ l -> f x = h <$> g x) -> omap f l = map h (omap g l).
Proof.
  induction l as [|x l IH]; intros Hf; [done|]. simpl.
  rewrite Hf by set_solver. destruct (g x); simpl; [f_equal|]; apply IH; set_solver.
Qed.

Lemma Forall_omap (P : B -> Prop) (g : A -> option B) (l : list A) :
  (forall x y, x ∈ l -> g x = Some y -> P y) -> Forall P (omap g l).
Proof.
  induction l as [|x l IH]; intros Hg; simpl; [constructor|].
  destruct (g x) eqn:E; [constructor; [apply (Hg x); [set_solver|done]|]|]; apply IH; set_solver.
Qed.

Lemma elem_of_omap_key (key : B -> A) (g : A -> option B) (l : list A) z :
  (forall x y, g x = Some y -> key y = x) -> z ∈ map key (omap g l) -> z ∈ l.
Proof.
  intros Hk. induction l as [|x l IH]; simpl; [set_solver|].
  destruct (g x) eqn:E; simpl; [|set_solver].
  rewrite elem_of_cons, (Hk _ _ E). set_solver.
Qed.

Lemma NoDup_omap_keys (key : B -> A) (g : A -> option B) (l : list A) :
  (forall x y, g x = Some y -> key y = x) -> NoDup l -> NoDup (map key (omap g l)).
Proof.
  intros Hk. induction 1 as [|x l Hx _ IH]; simpl; [constructor|].
  destruct (g x) eqn:E; simpl; [|done].
  constructor; [|done]. rewrite (Hk _ _ E). intros Hin. by eapply Hx, elem_of_omap_key.
Qed.
End omap_lemmas.

(** ** Keys in order of first occurrence, values of last occurrence

    A record built by assigning the pairs of a list in order keeps each
    key where it was first created and the value assigned last. *)

Section assoc.
Context {K V : Type} `{EqDecision K}.

(** The elements of [l] without repetition, each at its first occurrence. *)
Fixpoint first_occurrences (l : list K) : list K :=
  match l with
  | [] => []
  | x :: l' => x :: filter (fun y => y <> x) (first_occurrences l')
  end.

(** The value of the last pair of [l] whose key is [k]. *)
Fixpoint last_value (k : K) (l : list (K * V)) : option V :=
  match l with
  | [] => None
  | kv :: l' =>
      match last_value k l' with
      | Some v => Some v
      | None => if decide (kv.1 = k) then Some kv.2 else None
      end
  end.

(** Appending a key unless it is already there. *)
Definition snoc_new (ks : list K) (x : K) : list K :=
  if decide (x ∈ ks) then ks else ks ++ [x].

Lemma fold_snoc_new l ks :
  fold_left snoc_new l ks = ks ++ filter (fun y => y ∉ ks) (first_occurrences l).
Proof.
  revert ks; induction l as [|x l IH]; intros ks; simpl; [by rewrite app_nil_r|].
  rewrite IH, filter_cons. unfold snoc_new. rewrite list_filter_filter.
  destruct (decide (x ∈ ks)) as [Hx|Hx].
  - rewrite decide_False by naive_solver. f_equal. apply list_filter_iff. intros y. naive_solver.
  - rewrite decide_True by done. rewrite <-app_assoc. simpl. do 2 f_equal.
    apply list_filter_iff. intros y. rewrite elem_of_app, list_elem_of_singleton. naive_solver.
Qed.

Lemma fold_snoc_new_nil l : fold_left snoc_new l [] = first_occurrences l.
Proof.
  rewrite fold_snoc_new. simpl. induction (first_occurrences l) as [|x xs IH]; [done|].
  rewrite filter_cons_True by apply not_elem_of_nil. by f_equal.
Qed.

Lemma elem_of_first_occurrences x l : x ∈ first_occurrences l <-> x ∈ l.
Proof.
  induction l as [|y l IH]; simpl; [done|].
  rewrite !elem_of_cons, list_elem_of_filter, IH. destruct (decide (x = y)); naive_solver.
Qed.

Lemma first_occurrences_NoDup l : NoDup (first_occurrences l).
Proof.
  induction l as [|x l IH]; simpl; constructor.
  - rewrite list_elem_of_filter. naive_solver.
  - by apply NoDup_filter.
Qed.

End assoc.

(** ** Strings

    [String.append] does not simplify ([+:+] is [simpl never] in stdpp):
    these equations unfold it on a known first argument. *)

Lemma string_app_cons a (s1 s2 : string) : String a s1 +:+ s2 = String a (s1 +:+ s2).
Proof. done. Qed.

Lemma string_app_nil_l (s : string) : "" +:+ s = s.
Proof. done. Qed.

Lemma string_app_assoc (s1 s2 s3 : string) : (s1 +:+ s2) +:+ s3 = s1 +:+ s2 +:+ s3.
Proof.
  induction s1 as [|c s1 IH]; [done|].
  rewrite !string_app_cons. by rewrite IH.
Qed.

#[export] Hint Rewrite string_app_cons string_app_nil_l string_app_assoc : pg_rw.
#[export] Hint Resolve mapM_length mapM_inr_inv : pg.
#[export] Hint Rewrite @foldM_app : pg_rw.
