(* ===== verification/JsValue.v ===== *)
(** * JavaScript values, truthiness, [||], property keys and property reads

    The values [geminiService.ts] manipulates are those [JSON.parse]
    produces, plus [undefined] (the result of reading a missing property).
    Numbers are integers, those a double holds exactly (the response
    schema's [count] is an integer, and [Json.parse] refuses the other
    numbers); the operations the service applies to values
    ([||], [obj.key], [obj[key] = v], ToPropertyKey) are modelled after the
    ECMAScript specification for exactly these values. *)

From S2P Require Import Prelude.
From Stdlib Require Import DecimalString DecimalN DecimalZ DecimalPos.

(** The exceptions the service's body can raise: a [TypeError] from a
    property read on [null] or a call of a non-function, a [SyntaxError]
    from [JSON.parse], and the rejection of the SDK call
    [ai.models.generateContent] (network, quota or API errors). *)
Inductive jserr := TypeError | SyntaxError | ApiError.

(** A JavaScript value. [JObj ps] is an ordinary object whose prototype is
    [Object.prototype], with its own data properties [ps] in creation
    order; [JArr vs] a dense array. *)
Inductive jsval : Type :=
| JUndefined
| JNull
| JBool (b : bool)
| JNum (n : Z)
| JStr (s : string)
| JArr (vs : list jsval)
| JObj (ps : list (string * jsval)).

Abbreviation props := (list (string * jsval)).

(** The induction principle that sees through the nested lists. *)
Definition jsval_deep_ind (P : jsval -> Prop)
    (fu : P JUndefined) (fn : P JNull) (fb : forall b, P (JBool b))
    (fnum : forall n, P (JNum n)) (fs : forall s, P (JStr s))
    (fa : forall vs, Forall P vs -> P (JArr vs))
    (fo : forall ps, Forall (fun kv => P kv.2) ps -> P (JObj ps)) :
    forall v, P v :=
  fix F v :=
    match v with
    | JUndefined => fu
    | JNull => fn
    | JBool b => fb b
    | JNum n => fnum n
    | JStr s => fs s
    | JArr vs =>
        fa vs ((fix G vs : Forall P vs :=
                  match vs with
                  | [] => @ListDef.Forall_nil _ _
                  | w :: ws => @ListDef.Forall_cons _ P w ws (F w) (G ws)
                  end) vs)
    | JObj ps =>
        fo ps ((fix G ps : Forall (fun kv => P kv.2) ps :=
                  match ps with
                  | [] => @ListDef.Forall_nil _ _
                  | kv :: qs => @ListDef.Forall_cons _ (fun kv => P kv.2) kv qs (F kv.2) (G qs)
                  end) ps)
    end.

(** ** Decidable equality *)

Fixpoint jsval_eqb (v w : jsval) : bool :=
  match v, w with
  | JUndefined, JUndefined | JNull, JNull => true
  | JBool a, JBool b => Bool.eqb a b
  | JNum a, JNum b => Z.eqb a b
  | JStr a, JStr b => String.eqb a b
  | JArr xs, JArr ys =>
      (fix go xs ys :=
         match xs, ys with
         | [], [] => true
         | x :: xs', y :: ys' => jsval_eqb x y && go xs' ys'
         | _, _ => false
         end) xs ys
  | JObj ps, JObj qs =>
      (fix go ps qs :=
         match ps, qs with
         | [], [] => true
         | (k, x) :: ps', (l, y) :: qs' =>
             String.eqb k l && jsval_eqb x y && go ps' qs'
         | _, _ => false
         end) ps qs
  | _, _ => false
  end.

Lemma jsval_eqb_eq v w : jsval_eqb v w = true <-> v = w.
Proof.
  revert w; induction v as [| |b|n|s|vs IH|ps IH] using jsval_deep_ind;
    intros []; simpl; try (split; congruence).
  - rewrite Bool.eqb_true_iff. naive_solver.
  - rewrite Z.eqb_eq. naive_solver.
  - rewrite String.eqb_eq. naive_solver.
  - rename vs0 into ws. revert ws; induction IH as [|x vs Hx _ IHvs]; intros [|y ws];
      simpl; try (split; congruence).
    rewrite andb_true_iff, Hx, IHvs. naive_solver.
  - rename ps0 into qs. revert qs; induction IH as [|[k x] ps Hx _ IHps]; intros [|[l y] qs];
      simpl; try (split; congruence).
    rewrite !andb_true_iff, String.eqb_eq, Hx, IHps. naive_solver.
Qed.

#[export] Instance jsval_eq_dec : EqDecision jsval.
Proof.
  intros v w. destruct (jsval_eqb v w) eqn:E.
  - left. by apply jsval_eqb_eq.
  - right. intros <-. assert (jsval_eqb v v = true) by by apply jsval_eqb_eq. congruence.
Defined.

(** ** Truthiness and the [||] operator *)

(** ToBoolean: [undefined], [null], [false], [0] and [""] are falsy. *)
Definition truthy (v : jsval) : bool :=
  match v with
  | JUndefined | JNull => false
  | JBool b => b
  | JNum n => negb (n =? 0)%Z
  | JStr s => negb (String.eqb s "")
  | JArr _ | JObj _ => true
  end.

(** [a || b]: [a] when it is truthy, [b] otherwise. *)
Definition js_or (a b : jsval) : jsval := if truthy a then a else b.

(** ** Numbers as strings, array indices *)

(** Number::toString on an integer (below 10^21 no exponent is used). *)
Definition number_to_string (n : Z) : string :=
  NilZero.string_of_int (Z.to_int n).

(** The bound of array indices: an array index is below 2^32 - 1. *)
Definition array_index_bound : N := 4294967295%N.

(** A property key is an array index when it is the canonical decimal
    string of an integer [i] with [0 <= i < 2^32 - 1]: the test of the
    specification, ToString(ToUint32(P)) = P, for the keys whose digits
    parse. *)
Definition array_index (k : string) : option N :=
  match NilZero.uint_of_string k with
  | Some d =>
      let n := N.of_uint d in
      if (n <? array_index_bound)%N
         && String.eqb (number_to_string (Z.of_N n)) k
      then Some n else None
  | None => None
  end.

(** ** The length of a string

    A JavaScript string is a sequence of UTF-16 code units; the model
    holds the UTF-8 bytes of its text. A code point of one to three
    UTF-8 bytes (below U+10000) is one code unit and a code point of four
    bytes is a surrogate pair: [s.length] counts one unit for each byte
    that starts a sequence of at most three bytes, two for each byte that
    starts a sequence of four, none for a continuation byte. *)
Definition utf16_units (b : Ascii.ascii) : nat :=
  let n := Ascii.nat_of_ascii b in
  if n <? 128 then 1 else if n <? 192 then 0 else if n <? 240 then 1 else 2.

Fixpoint utf16_length (s : string) : nat :=
  match s with
  | EmptyString => 0
  | String b s' => utf16_units b + utf16_length s'
  end.

(** ** Own properties *)

(** The value of own property [k], the first (and, in a well-formed
    object, only) entry with that key. *)
Fixpoint props_lookup (k : string) (ps : props) : option jsval :=
  match ps with
  | [] => None
  | (k', v) :: ps' => if String.eqb k k' then Some v else props_lookup k ps'
  end.

(** ** ToPropertyKey

    [acc[curr.name]] converts [curr.name] with ToPropertyKey. For the
    values here this is ToString: an array joins its elements with [","]
    (holes, [null] and [undefined] give [""]); an object prints
    ["[object Object]"] unless it has an own [toString] data property,
    which is not callable, so that OrdinaryToPrimitive finds no method
    and throws a [TypeError]. *)
Fixpoint to_property_key (v : jsval) : jserr + string :=
  match v with
  | JUndefined => inr "undefined"
  | JNull => inr "null"
  | JBool true => inr "true"
  | JBool false => inr "false"
  | JNum n => inr (number_to_string n)
  | JStr s => inr s
  | JArr vs =>
      do ss <- (fix go vs :=
                  match vs with
                  | [] => inr []
                  | w :: ws =>
                      do s <- match w with
                              | JUndefined | JNull => inr ""
                              | _ => to_property_key w
                              end;
                      do ss <- go ws; inr (s :: ss)
                  end) vs;
      inr (String.concat "," ss)
  | JObj ps =>
      match props_lookup "toString" ps with
      | Some _ => inl TypeError
      | None => inr "[object Object]"
      end
  end.

(** ** Property reads

    [v.k] (GetValue of a property reference). Reading a property of
    [undefined] or [null] throws. An object answers from its own
    properties: the keys the service reads ([elements], [count],
    [selectorUsed], [attributes], [name], [value]) are none of the
    properties of [Object.prototype], [Array.prototype] or
    [String.prototype], so a key that is not own reads [undefined]. The
    [length] of a string counts its UTF-16 code units ([utf16_length]);
    an index reads a byte of the UTF-8 text, as the spread of a string
    ([JsObject.own_enumerable]) copies its bytes: the code units of the
    text when it is ASCII. Only a string element, which the schema
    excludes, is spread as a string. *)
Definition get (v : jsval) (k : string) : jserr + jsval :=
  match v with
  | JUndefined | JNull => inl TypeError
  | JObj ps => inr (default JUndefined (props_lookup k ps))
  | JArr vs =>
      inr (if String.eqb k "length" then JNum (Z.of_nat (length vs))
           else match array_index k with
                | Some i => default JUndefined (vs !! N.to_nat i)
                | None => JUndefined
                end)
  | JStr s =>
      inr (if String.eqb k "length" then JNum (Z.of_nat (utf16_length s))
           else match array_index k with
                | Some i =>
                    match String.get (N.to_nat i) s with
                    | Some c => JStr (String c "")
                    | None => JUndefined
                    end
                | None => JUndefined
                end)
  | JBool _ | JNum _ => inr JUndefined
  end.

(** ** Lemmas *)

Lemma js_or_eq_right a b : js_or a b = b <-> truthy a = false \/ a = b.
Proof. unfold js_or. destruct (truthy a); naive_solver. Qed.

Lemma js_or_falsy a b : truthy a = false -> js_or a b = b.
Proof. unfold js_or. by intros ->. Qed.

Lemma js_or_truthy a b : truthy a = true -> js_or a b = a.
Proof. unfold js_or. by intros ->. Qed.

#[export] Hint Rewrite js_or_falsy js_or_truthy using reflexivity : pg_rw.

