(* ===== verification/JsObject.v ===== *)
(** * Ordinary objects: own properties, key order, spread, assignment

    The object operations [geminiService.ts] performs: the spread
    [{...el, attributes: ...}] (CopyDataProperties then
    CreateDataProperty), the assignment [acc[k] = v] on the accumulator of
    [reduce] (OrdinarySet, including the [__proto__] accessor of
    [Object.prototype]), and the enumeration order that [Object.entries]
    (in [App.tsx]) and the spread follow ([[OwnPropertyKeys]]: array
    indices in ascending numeric order, then the other string keys in
    creation order). *)

From S2P Require Import Prelude JsValue.

(** ** Own property lists *)

Definition props_keys (ps : props) : list string := map fst ps.

(** A well-formed property list has each key once. *)
Definition props_wf (ps : props) : Prop := NoDup (props_keys ps).

(** CreateDataProperty / OrdinarySet on a writable own data property: an
    existing key keeps its position and takes the new value, a new key is
    appended (it is the newest property). *)
Fixpoint props_set (k : string) (v : jsval) (ps : props) : props :=
  match ps with
  | [] => [(k, v)]
  | (k', v') :: ps' =>
      if String.eqb k k' then (k, v) :: ps' else (k', v') :: props_set k v ps'
  end.

(** ** [[OwnPropertyKeys]] of an ordinary object *)

(** The array-index keys, paired with their numeric value. *)
Definition index_keys (ks : list string) : list (N * string) :=
  omap (fun k => (fun n => (n, k)) <$> array_index k) ks.

(** The order of array indices: by numeric value. *)
Definition index_le (a b : N * string) : Prop := (a.1 <= b.1)%N.

#[export] Instance index_le_dec : RelDecision index_le :=
  fun a b => decide (a.1 <= b.1)%N.

(** Array indices in ascending numeric order, then the other keys in
    creation order. *)
Definition own_keys (ps : props) : list string :=
  map snd (merge_sort index_le (index_keys (props_keys ps)))
  ++ filter (fun k => array_index k = None) (props_keys ps).

(** [Object.entries]: the [(key, value)] pairs in [[OwnPropertyKeys]]
    order (every property here is an enumerable data property). *)
Definition entries (ps : props) : props :=
  map (fun k => (k, default JUndefined (props_lookup k ps))) (own_keys ps).

(** The own enumerable properties the spread [{...v}] copies: those of an
    object in key order, the indices of an array or of a string (one
    character strings), nothing for the other primitives, [null] and
    [undefined]. *)
Definition own_enumerable (v : jsval) : props :=
  match v with
  | JObj ps => entries ps
  | JArr vs => imap (fun i x => (number_to_string (Z.of_nat i), x)) vs
  | JStr s =>
      imap (fun i c => (number_to_string (Z.of_nat i), JStr (String c EmptyString)))
           (String.list_ascii_of_string s)
  | _ => []
  end.

(** CopyDataProperties(target, source): CreateDataProperty of each copied
    property, in order. *)
Definition copy_data_properties (target : props) (src : jsval) : props :=
  fold_left (fun t kv => props_set kv.1 kv.2 t) (own_enumerable src) target.

(** ** The accumulator of [reduce] and the [__proto__] setter

    [{}] starts with prototype [Object.prototype]. Assigning to the key
    ["__proto__"] when the object has no own property of that name reaches
    the accessor of [Object.prototype], whose setter replaces the
    prototype by an object or [null] and ignores any other value; the
    accessor is not reached when the prototype chain ends in [null] first
    or passes through an object with an own ["__proto__"] data property,
    and then an own property is created as for any other key. *)
Inductive proto :=
| ProtoObject            (** [Object.prototype] *)
| ProtoNull              (** [null] *)
| ProtoOf (o : jsval).   (** a parsed object or array, itself inheriting
                             from [Object.prototype] *)

Record ordinary := mk_ordinary { o_proto : proto; o_props : props }.

(** The empty object literal [{}]. *)
Definition empty_object : ordinary := mk_ordinary ProtoObject [].

(** Does a lookup of ["__proto__"] along the chain reach the accessor of
    [Object.prototype]? *)
Definition reaches_proto_accessor (p : proto) : bool :=
  match p with
  | ProtoObject => true
  | ProtoNull => false
  | ProtoOf (JObj ps) =>
      match props_lookup "__proto__" ps with Some _ => false | None => true end
  | ProtoOf _ => true
  end.

(** [o[k] = v] (PutValue, OrdinarySet). *)
Definition ordinary_set (k : string) (v : jsval) (o : ordinary) : ordinary :=
  match props_lookup k (o_props o) with
  | Some _ => mk_ordinary (o_proto o) (props_set k v (o_props o))
  | None =>
      if String.eqb k "__proto__" && reaches_proto_accessor (o_proto o) then
        match v with
        | JNull => mk_ordinary ProtoNull (o_props o)
        | JObj _ | JArr _ => mk_ordinary (ProtoOf v) (o_props o)
        | _ => o
        end
      else mk_ordinary (o_proto o) (props_set k v (o_props o))
  end.

(** ** Lemmas on property lists *)

Lemma props_lookup_None k ps : props_lookup k ps = None <-> k ∉ props_keys ps.
Proof.
  induction ps as [|[k' v] ps IH]; simpl; [set_solver|].
  destruct (String.eqb_spec k k'); subst; [set_solver|].
  rewrite IH. set_solver.
Qed.

Lemma props_lookup_set_eq k v ps : props_lookup k (props_set k v ps) = Some v.
Proof.
  induction ps as [|[k' v'] ps IH]; simpl; [by rewrite String.eqb_refl|].
  destruct (String.eqb_spec k k'); simpl; [by rewrite String.eqb_refl|].
  destruct (String.eqb_spec k k'); [done|auto].
Qed.

Lemma props_lookup_set_ne k k' v ps :
  k' <> k -> props_lookup k' (props_set k v ps) = props_lookup k' ps.
Proof.
  intros Hne. induction ps as [|[k'' v'] ps IH]; simpl.
  - by destruct (String.eqb_spec k' k).
  - destruct (String.eqb_spec k k''); subst; simpl.
    + by destruct (String.eqb_spec k' k'').
    + by destruct (String.eqb_spec k' k'').
Qed.

Lemma props_keys_set k v ps :
  props_keys (props_set k v ps) =
  if decide (k ∈ props_keys ps) then props_keys ps else props_keys ps ++ [k].
Proof.
  unfold props_keys.
  induction ps as [|[k' v'] ps IH]; cbn [props_set map fst].
  - rewrite decide_False by set_solver. done.
  - destruct (String.eqb_spec k k'); subst; cbn [props_set map fst].
    + rewrite decide_True by set_solver. done.
    + rewrite IH. destruct (decide (k ∈ map fst ps)).
      * rewrite decide_True by set_solver. done.
      * rewrite decide_False by set_solver. done.
Qed.

Lemma props_lookup_Forall (Q : jsval -> Prop) ps k v :
  Forall (fun kv => Q kv.2) ps -> props_lookup k ps = Some v -> Q v.
Proof.
  induction 1 as [|[k' v'] ps Hv _ IH]; simpl; [done|].
  destruct (String.eqb k k'); [by intros [= <-]|done].
Qed.

Lemma props_set_fresh k v ps : k ∉ props_keys ps -> props_set k v ps = ps ++ [(k, v)].
Proof.
  unfold props_keys. induction ps as [|[k' v'] ps IH]; intros Hk; simpl in *; [done|].
  apply not_elem_of_cons in Hk as [Hne Hk].
  destruct (String.eqb_spec k k'); [congruence|]. by rewrite IH.
Qed.

Lemma props_set_wf k v ps : props_wf ps -> props_wf (props_set k v ps).
Proof.
  unfold props_wf. rewrite props_keys_set. case_decide; [done|].
  intros Hnd. apply NoDup_app. repeat split; [done| |by apply NoDup_singleton].
  set_solver.
Qed.

Lemma props_set_Forall (P : string * jsval -> Prop) k v ps :
  Forall P ps -> P (k, v) -> Forall P (props_set k v ps).
Proof.
  induction 1 as [|[k' v'] ps Hkv Hps IH]; intros Hp; simpl; [by constructor|].
  destruct (String.eqb k k'); constructor; auto.
Qed.

#[export] Hint Resolve props_set_wf : pg.
#[export] Hint Rewrite props_lookup_set_eq : pg_rw.

(** Adding properties with fresh distinct keys appends them. *)
Lemma fold_props_set_fresh (l t : props) :
  NoDup (props_keys l) -> (forall k, k ∈ props_keys l -> k ∉ props_keys t) ->
  fold_left (fun t kv => props_set kv.1 kv.2 t) l t = t ++ l.
Proof.
  revert t; induction l as [|[k v] l IH]; intros t Hnd Hfresh; simpl; [by rewrite app_nil_r|].
  apply NoDup_cons in Hnd as [Hk Hnd].
  assert (props_set k v t = t ++ [(k, v)]) as ->.
  { clear -Hfresh. induction t as [|[k' v'] t IHt]; simpl; [done|].
    destruct (String.eqb_spec k k'); [subst; set_solver|].
    rewrite IHt; [done|]. intros k'' Hk''. set_solver. }
  rewrite IH; [by rewrite <-app_assoc|done|].
  intros k' Hk'. unfold props_keys. rewrite map_app. set_solver.
Qed.

(** ** Lemmas on the key order *)

Lemma index_keys_snd ks :
  map snd (index_keys ks) = filter (fun k => ~ array_index k = None) ks.
Proof.
  induction ks as [|k ks IH]; [done|]. rewrite filter_cons.
  destruct (array_index k) eqn:Hk.
  - rewrite decide_True by congruence. unfold index_keys in *. simpl.
    rewrite Hk. simpl. f_equal. exact IH.
  - rewrite decide_False by congruence. unfold index_keys in *. simpl.
    rewrite Hk. exact IH.
Qed.

Lemma own_keys_perm ps : own_keys ps ≡ₚ props_keys ps.
Proof.
  unfold own_keys.
  rewrite (Permutation_map snd (merge_sort_Permutation index_le _)).
  rewrite index_keys_snd.
  rewrite (list_filter_iff (fun k => array_index k = None) (fun k => ~ ~ array_index k = None));
    [apply filter_app_complement|].
  intros k. destruct (array_index k); naive_solver.
Qed.

(** Without array-index keys, the key order is the creation order. *)
Lemma own_keys_no_index ps :
  Forall (fun k => array_index k = None) (props_keys ps) -> own_keys ps = props_keys ps.
Proof.
  intros Hall. unfold own_keys.
  assert (index_keys (props_keys ps) = [] /\
          filter (fun k => array_index k = None) (props_keys ps) = props_keys ps)
    as [-> ->]; [|done].
  induction Hall as [|k ks Hk _ [IH1 IH2]]; [done|].
  rewrite filter_cons, decide_True by done. unfold index_keys in *. simpl.
  rewrite Hk, IH2. split; [exact IH1|done].
Qed.

(** The array indices come first, in ascending numeric order. *)
Lemma own_keys_sorted ps :
  exists idx, own_keys ps = map snd idx
                            ++ filter (fun k => array_index k = None) (props_keys ps)
              /\ Sorted index_le idx
              /\ Forall (fun nk => array_index nk.2 = Some nk.1) idx.
Proof.
  eexists. split; [reflexivity|]. split.
  - apply Sorted_merge_sort. intros a b. unfold index_le. lia.
  - rewrite (merge_sort_Permutation index_le _).
    unfold index_keys. induction (props_keys ps) as [|k ks IH]; simpl; [constructor|].
    destruct (array_index k) eqn:Hk; simpl; auto.
Qed.

Lemma entries_perm ps : props_wf ps -> entries ps ≡ₚ ps.
Proof.
  intros Hwf. unfold entries. rewrite (Permutation_map _ (own_keys_perm ps)).
  unfold props_wf, props_keys in *. clear -Hwf.
  induction ps as [|[k v] ps IH]; simpl; [done|].
  apply NoDup_cons in Hwf as [Hk Hwf]. rewrite String.eqb_refl. f_equiv.
  rewrite <-IH at 2 by done. apply Permutation_refl'. apply map_ext_in.
  intros k' Hk'. apply list_elem_of_In in Hk'.
  destruct (String.eqb_spec k' k); [subst; done|done].
Qed.

Lemma entries_keys ps : props_keys (entries ps) = own_keys ps.
Proof. unfold entries, props_keys. rewrite map_map. apply map_id. Qed.

(** Spreading a well-formed object into [{}] copies its entries. *)
Lemma copy_data_properties_obj ps :
  props_wf ps -> copy_data_properties [] (JObj ps) = entries ps.
Proof.
  intros Hwf. unfold copy_data_properties. simpl.
  apply fold_props_set_fresh; [|set_solver].
  rewrite entries_keys. unfold props_wf in Hwf. by rewrite own_keys_perm.
Qed.

(** Reading a property of the copy [{...o}] reads the original: a
    duplicated key is copied with the value its lookup gives. *)
Lemma props_lookup_fold_set (f : string -> jsval) ks t k :
  props_lookup k (fold_left (fun t kv => props_set kv.1 kv.2 t) (map (fun k => (k, f k)) ks) t)
  = if decide (k ∈ ks) then Some (f k) else props_lookup k t.
Proof.
  revert t; induction ks as [|k0 ks IH]; intros t; cbn [fold_left map fst snd].
  - by rewrite decide_False by set_solver.
  - rewrite IH. destruct (decide (k ∈ ks)).
    + by rewrite decide_True by set_solver.
    + destruct (String.eqb_spec k k0) as [->|Hne].
      * rewrite decide_True, props_lookup_set_eq by set_solver. done.
      * rewrite decide_False, props_lookup_set_ne by set_solver. done.
Qed.

Lemma props_lookup_copy_obj ps k :
  props_lookup k (copy_data_properties [] (JObj ps)) = props_lookup k ps.
Proof.
  unfold copy_data_properties, own_enumerable, entries.
  rewrite props_lookup_fold_set. cbn [props_lookup].
  destruct (decide (k ∈ own_keys ps)) as [Hk|Hk];
    rewrite own_keys_perm in Hk; destruct (props_lookup k ps) eqn:E; try done.
  - by apply props_lookup_None in E.
  - apply props_lookup_None in Hk. congruence.
Qed.

#[export] Hint Rewrite props_lookup_copy_obj : pg_rw.

(** ** Lemmas on assignment *)

Lemma ordinary_set_other k v o :
  k <> "__proto__" -> ordinary_set k v o = mk_ordinary (o_proto o) (props_set k v (o_props o)).
Proof.
  intros Hk. unfold ordinary_set. destruct (props_lookup k (o_props o)); [done|].
  by destruct (String.eqb_spec k "__proto__").
Qed.

