(* ===== verification/Json.v ===== *)
(** * [JSON.parse]: a parser for JSON texts

    The service hands the model's reply to [JSON.parse] (the ECMAScript
    library function, not code of the repository). This is a model of it
    for the values of [JsValue]: whitespace, [null], [true], [false],
    strings with the two-character escapes (quote, backslash, slash, b, f,
    n, r, t) and the [\u] escapes (four hexadecimal digits, or two for a
    surrogate pair), whose character is written in UTF-8 as the text of
    the development's strings is, numbers, arrays, and objects in
    which a repeated key keeps its first position and takes its last
    value (CreateDataProperty). The text must hold one value and only
    whitespace after it. A number with a fraction or an exponent is read
    when its value is an integer of magnitude at most [2^53], which a
    double holds exactly; other numbers (not integers, or rounded by the
    double) and the escape of a lone surrogate (which has no UTF-8
    encoding) are outside the values the development models, and the
    parser refuses them.

    The recursion consumes a character before every nested call; the fuel
    [2 * length + 2] bounds the number of calls. *)

From S2P Require Import Prelude JsValue JsObject.
From Stdlib Require Import Ascii.

Module Json.

(** The character code: characters are compared by code, the quote and the
    backslash having no plain literal. *)
Definition code (c : ascii) : N := Ascii.N_of_ascii c.

Definition is_ws (c : ascii) : bool :=
  match Ascii.nat_of_ascii c with 9 | 10 | 13 | 32 => true | _ => false end.

Fixpoint skip_ws (l : list ascii) : list ascii :=
  match l with
  | c :: l' => if is_ws c then skip_ws l' else l
  | [] => []
  end.

Definition digit_value (c : ascii) : option nat :=
  let n := Ascii.nat_of_ascii c in
  if (48 <=? n) && (n <=? 57) then Some (n - 48) else None.

Definition hex_value (c : ascii) : option nat :=
  let n := Ascii.nat_of_ascii c in
  if (48 <=? n) && (n <=? 57) then Some (n - 48)
  else if (65 <=? n) && (n <=? 70) then Some (n - 55)
  else if (97 <=? n) && (n <=? 102) then Some (n - 87)
  else None.

(** The digits of an integer part, with their value. *)
Fixpoint digits (l : list ascii) (acc : Z) : Z * list ascii :=
  match l with
  | c :: l' =>
      match digit_value c with
      | Some d => digits l' (acc * 10 + Z.of_nat d)%Z
      | None => (acc, l)
      end
  | [] => (acc, [])
  end.

(** The sign of a number: [-] or nothing. *)
Definition parse_sign (l : list ascii) : bool * list ascii :=
  match l with
  | c :: l' => if (code c =? 45)%N then (true, l') else (false, l)
  | [] => (false, l)
  end.

(** The integer part: [0], or a nonzero digit and more digits. *)
Definition parse_int (l : list ascii) : option (Z * list ascii) :=
  match l with
  | c :: l' =>
      match digit_value c with
      | Some 0 => Some (0%Z, l')
      | Some d => Some (digits l' (Z.of_nat d))
      | None => None
      end
  | [] => None
  end.

(** The fraction, if any: [.] and at least one digit, appended to the
    digits [m] read so far; with the number of its digits. *)
Definition parse_frac (m : Z) (l : list ascii) : option (Z * nat * list ascii) :=
  match l with
  | c :: l' =>
      if (code c =? 46)%N then
        match l' with
        | d :: _ =>
            match digit_value d with
            | Some _ => let '(m', r) := digits l' m in Some (m', length l' - length r, r)
            | None => None
            end
        | [] => None
        end
      else Some (m, 0, l)
  | [] => Some (m, 0, l)
  end.

(** The exponent, if any: [e] or [E], a sign, at least one digit. *)
Definition parse_exp (l : list ascii) : option (Z * list ascii) :=
  match l with
  | c :: l' =>
      if (code c =? 101)%N || (code c =? 69)%N then
        let '(neg, l1) := match l' with
                          | s :: l1 => if (code s =? 45)%N then (true, l1)
                                       else if (code s =? 43)%N then (false, l1)
                                       else (false, l')
                          | [] => (false, l')
                          end in
        match l1 with
        | d :: _ =>
            match digit_value d with
            | Some _ => let '(e, r) := digits l1 0 in Some (if neg then Z.opp e else e, r)
            | None => None
            end
        | [] => None
        end
      else Some (0%Z, l)
  | [] => Some (0%Z, l)
  end.

(** [m * 10^s] when it is an integer. A nonzero [m] is below
    [2^(log2 m + 1)], so it has no factor [10^k] for a larger [k]. *)
Definition integral (m s : Z) : option Z :=
  if (m =? 0)%Z then Some 0%Z
  else if (0 <=? s)%Z then
    if (s <=? 16)%Z then Some (m * 10 ^ s)%Z else None
  else if (Z.log2 m + 1 <? - s)%Z then None
  else if (m mod 10 ^ (- s) =? 0)%Z then Some (m / 10 ^ (- s))%Z else None.

(** The largest integer below which every integer is a double: [2^53]. *)
Definition max_safe : Z := 9007199254740992.

(** A number: sign, integer part, fraction, exponent. Its value is a
    double; the development keeps the numbers whose value is an integer
    of magnitude at most [2^53], which the double holds exactly, and
    refuses the others ([1.5], [1e400]). A larger [m * 10^s] with
    [s > 16] is refused without being computed. *)
Definition parse_number (l : list ascii) : option (Z * list ascii) :=
  let '(neg, l1) := parse_sign l in
  '(m0, r1) ← parse_int l1;
  '(m, k, r2) ← parse_frac m0 r1;
  '(e, rest) ← parse_exp r2;
  v ← integral m (e - Z.of_nat k);
  if (Z.abs v <=? max_safe)%Z then Some (if neg then Z.opp v else v, rest) else None.

(** The code unit of the four hexadecimal digits of a [\u] escape. *)
Definition hex4 (h1 h2 h3 h4 : ascii) : option N :=
  a ← hex_value h1; b ← hex_value h2; c ← hex_value h3; d ← hex_value h4;
  Some (((N.of_nat a * 16 + N.of_nat b) * 16 + N.of_nat c) * 16 + N.of_nat d)%N.

Definition is_high_surrogate (u : N) : bool := (55296 <=? u)%N && (u <? 56320)%N.
Definition is_low_surrogate (u : N) : bool := (56320 <=? u)%N && (u <? 57344)%N.

(** The code point of a UTF-16 surrogate pair. *)
Definition surrogate_pair (hi lo : N) : N := (65536 + (hi - 55296) * 1024 + (lo - 56320))%N.

(** The UTF-8 bytes of a code point below [0x110000]: the byte strings
    of the development hold the UTF-8 encoding of the text. A
    continuation byte carries six bits, [0x80 | (cp >> k) & 0x3F]. *)
Definition utf8_encode (cp : N) : list ascii :=
  let cont k := Ascii.ascii_of_N (128 + N.land (N.shiftr cp k) 63) in
  if (cp <? 128)%N then [Ascii.ascii_of_N cp]
  else if (cp <? 2048)%N then [Ascii.ascii_of_N (192 + N.shiftr cp 6); cont 0%N]
  else if (cp <? 65536)%N then [Ascii.ascii_of_N (224 + N.shiftr cp 12); cont 6%N; cont 0%N]
  else [Ascii.ascii_of_N (240 + N.shiftr cp 18); cont 12%N; cont 6%N; cont 0%N].

(** The characters of a string after its opening quote, up to and
    including the closing quote. *)
Fixpoint parse_chars (l : list ascii) : option (list ascii * list ascii) :=
  match l with
  | [] => None
  | c :: l' =>
      if (code c =? 34)%N then Some ([], l')
      else if (code c <? 32)%N then None
      else if (code c =? 92)%N then
        match l' with
        | e :: l'' =>
            let esc r := (fun '(s, rest) => (r :: s, rest)) <$> parse_chars l'' in
            match code e with
            | 34%N | 92%N | 47%N => esc e
            | 98%N => esc (Ascii.ascii_of_nat 8)
            | 102%N => esc (Ascii.ascii_of_nat 12)
            | 110%N => esc (Ascii.ascii_of_nat 10)
            | 114%N => esc (Ascii.ascii_of_nat 13)
            | 116%N => esc (Ascii.ascii_of_nat 9)
            | 117%N =>
                match l'' with
                | h1 :: h2 :: h3 :: h4 :: l3 =>
                    hex4 h1 h2 h3 h4 ≫= fun u =>
                    if is_high_surrogate u then
                      match l3 with
                      | b :: v :: k1 :: k2 :: k3 :: k4 :: l4 =>
                          if (code b =? 92)%N && (code v =? 117)%N then
                            hex4 k1 k2 k3 k4 ≫= fun lo =>
                            if is_low_surrogate lo then
                              (fun '(s, rest) => (utf8_encode (surrogate_pair u lo) ++ s, rest))
                                <$> parse_chars l4
                            else None
                          else None
                      | _ => None
                      end
                    else if is_low_surrogate u then None
                    else (fun '(s, rest) => (utf8_encode u ++ s, rest)) <$> parse_chars l3
                | _ => None
                end
            | _ => None
            end
        | [] => None
        end
      else (fun '(s, rest) => (c :: s, rest)) <$> parse_chars l'
  end.

Definition parse_string (l : list ascii) : option (string * list ascii) :=
  match l with
  | c :: l' =>
      if (code c =? 34)%N
      then (fun '(s, rest) => (String.string_of_list_ascii s, rest)) <$> parse_chars l'
      else None
  | [] => None
  end.

(** A literal keyword. *)
Fixpoint parse_keyword (kw : list ascii) (l : list ascii) : option (list ascii) :=
  match kw, l with
  | [], _ => Some l
  | k :: kw', c :: l' => if Ascii.eqb k c then parse_keyword kw' l' else None
  | _ :: _, [] => None
  end.

(** A value, the elements of an array after [[], the members of an object
    after [{]. *)
Fixpoint parse_value (fuel : nat) (l : list ascii) : option (jsval * list ascii) :=
  match fuel with
  | 0 => None
  | S fuel' =>
      match skip_ws l with
      | c :: l' =>
          let l0 := c :: l' in
          match code c with
          | 123%N =>
              match skip_ws l' with
              | c' :: l'' => if (code c' =? 125)%N then Some (JObj [], l'')
                             else parse_members fuel' l' []
              | [] => None
              end
          | 91%N =>
              match skip_ws l' with
              | c' :: l'' => if (code c' =? 93)%N then Some (JArr [], l'')
                             else parse_elements fuel' l' []
              | [] => None
              end
          | 34%N => (fun '(s, rest) => (JStr s, rest)) <$> parse_string l0
          | 116%N => (fun rest => (JBool true, rest)) <$> parse_keyword ["t";"r";"u";"e"]%char l0
          | 102%N => (fun rest => (JBool false, rest)) <$> parse_keyword ["f";"a";"l";"s";"e"]%char l0
          | 110%N => (fun rest => (JNull, rest)) <$> parse_keyword ["n";"u";"l";"l"]%char l0
          | _ => (fun '(n, rest) => (JNum n, rest)) <$> parse_number l0
          end
      | [] => None
      end
  end
with parse_elements (fuel : nat) (l : list ascii) (acc : list jsval)
    : option (jsval * list ascii) :=
  match fuel with
  | 0 => None
  | S fuel' =>
      parse_value fuel' l ≫= fun '(v, rest) =>
        match skip_ws rest with
        | c :: rest' =>
            if (code c =? 44)%N then parse_elements fuel' rest' (acc ++ [v])
            else if (code c =? 93)%N then Some (JArr (acc ++ [v]), rest')
            else None
        | [] => None
        end
  end
with parse_members (fuel : nat) (l : list ascii) (acc : props)
    : option (jsval * list ascii) :=
  match fuel with
  | 0 => None
  | S fuel' =>
      parse_string (skip_ws l) ≫= fun '(k, rest) =>
        match skip_ws rest with
        | c :: rest' =>
            if negb (code c =? 58)%N then None else
            parse_value fuel' rest' ≫= fun '(v, rest'') =>
              match skip_ws rest'' with
              | c' :: r =>
                  if (code c' =? 44)%N then parse_members fuel' r (props_set k v acc)
                  else if (code c' =? 125)%N then Some (JObj (props_set k v acc), r)
                  else None
              | [] => None
              end
        | [] => None
        end
  end.

(** [JSON.parse(text)]: [None] is the [SyntaxError]. *)
Definition parse (text : string) : option jsval :=
  let l := String.list_ascii_of_string text in
  match parse_value (2 * length l + 2) l with
  | Some (v, rest) => match skip_ws rest with [] => Some v | _ => None end
  | None => None
  end.

End Json.
