(* ===== verification/JsonFuel.v ===== *)
(** * The fuel of [Json.parse] is enough

    [Json.parse] bounds its recursion with fuel [2 * length + 2]. This
    file shows the bound never cuts a parse short: each nested call
    consumes input (a value at least one character, a member at least
    five), so [parse_value] with fuel [2 * length l + 1] or more gives
    the same answer as with any larger fuel, and the answer of
    [Json.parse] is the answer of the unbounded parser. *)

From S2P Require Import Prelude JsValue JsObject Json.
From Stdlib Require Import Ascii.

Module JsonFuel.
Import Json.

(** [JSON.parse] with the fuel as a parameter: [Json.parse] is
    [parse_with (2 * length + 2)]. *)
Definition parse_with (fuel : nat) (text : string) : option jsval :=
  let l := String.list_ascii_of_string text in
  match parse_value fuel l with
  | Some (v, rest) => match skip_ws rest with [] => Some v | _ => None end
  | None => None
  end.

(** ** What each step consumes *)

Lemma skip_ws_length l : length (skip_ws l) <= length l.
Proof. induction l as [|c l IH]; simpl; [done|]. destruct (is_ws c); simpl; lia. Qed.

Lemma digits_length l acc : length (digits l acc).2 <= length l.
Proof.
  revert acc; induction l as [|c l IH]; intros acc; simpl; [done|].
  destruct (digit_value c); simpl; [specialize (IH (acc * 10 + Z.of_nat n)%Z)|]; lia.
Qed.

Lemma parse_sign_length l : length (parse_sign l).2 <= length l.
Proof. destruct l as [|c l]; simpl; [lia|]. destruct (code c =? 45)%N; simpl; lia. Qed.

Lemma parse_int_length l m r : parse_int l = Some (m, r) -> length r < length l.
Proof.
  destruct l as [|c l]; [done|]. unfold parse_int.
  destruct (digit_value c) as [[|d]|]; intros Hp; simplify_eq; simpl; [lia|].
  pose proof (digits_length l (Z.of_nat (S d))) as Hd. rewrite Hp in Hd. simpl in Hd. lia.
Qed.

Lemma parse_frac_length m l m' k r : parse_frac m l = Some (m', k, r) -> length r <= length l.
Proof.
  destruct l as [|c l]; unfold parse_frac; [intros [= _ _ <-]; lia|].
  destruct (code c =? 46)%N; [|intros [= _ _ <-]; lia].
  destruct l as [|d l']; [done|]. destruct (digit_value d); [|done].
  pose proof (digits_length (d :: l') m) as Hd.
  destruct (digits (d :: l') m) as [m0 r0]. intros [= _ _ <-]. simpl in *. lia.
Qed.

Lemma parse_exp_length l e r : parse_exp l = Some (e, r) -> length r <= length l.
Proof.
  destruct l as [|c l]; unfold parse_exp; [intros [= _ <-]; lia|].
  destruct (_ || _); [|intros [= _ <-]; lia].
  assert (exists neg l1, (match l with
                          | s :: l1 => if (code s =? 45)%N then (true, l1)
                                       else if (code s =? 43)%N then (false, l1) else (false, l)
                          | [] => (false, l)
                          end) = (neg, l1) /\ length l1 <= length l) as (neg & l1 & -> & Hl1).
  { destruct l as [|s l]; [by eexists _, _|].
    destruct (code s =? 45)%N; [|destruct (code s =? 43)%N];
      eexists _, _; (split; [reflexivity|simpl; lia]). }
  destruct l1 as [|d l2]; [done|]. destruct (digit_value d); [|done].
  pose proof (digits_length (d :: l2) 0) as Hd.
  destruct (digits (d :: l2) 0) as [e0 r0]. intros [= _ <-]. simpl in *. lia.
Qed.

Lemma parse_number_length l n rest :
  parse_number l = Some (n, rest) -> length rest < length l.
Proof.
  unfold parse_number. pose proof (parse_sign_length l) as Hs.
  destruct (parse_sign l) as [neg l1]. simpl in Hs.
  destruct (parse_int l1) as [[m0 r1]|] eqn:Hi; [|done]. apply parse_int_length in Hi. simpl.
  destruct (parse_frac m0 r1) as [[[m k] r2]|] eqn:Hf; [|done]. apply parse_frac_length in Hf. simpl.
  destruct (parse_exp r2) as [[e r3]|] eqn:He; [|done]. apply parse_exp_length in He. simpl.
  destruct (integral m (e - Z.of_nat k)) as [v|]; [|done]. simpl.
  destruct (Z.abs v <=? max_safe)%Z; [|done]. intros [= _ <-]. lia.
Qed.

(** A recursive call of [parse_chars] on a shorter suffix. *)
Local Ltac rec_call IH :=
  match goal with
  | |- _ <$> parse_chars ?x = Some _ -> _ =>
      destruct (parse_chars x) as [[s0 r0]|] eqn:E; [|done]; simpl; intros [= _ <-];
      apply IH in E; [|simpl in *; lia]; simpl in *; lia
  end.

Lemma parse_chars_length l s rest :
  parse_chars l = Some (s, rest) -> length rest < length l.
Proof.
  revert s rest. induction l as [l IH] using (induction_ltof1 _ (@length ascii)).
  unfold ltof in IH. intros s rest.
  destruct l as [|c l']; [done|]. cbn [parse_chars].
  destruct (code c =? 34)%N; [intros [= _ <-]; simpl; lia|].
  destruct (code c <? 32)%N; [done|].
  destruct (code c =? 92)%N; [|rec_call IH].
  destruct l' as [|e l'']; [done|].
  destruct (code e) as [|p]; [done|].
  repeat (destruct p as [p|p|]; try done; try rec_call IH).
  (* [\u]: one escape, or a surrogate pair *)
  destruct l'' as [|h1 [|h2 [|h3 [|h4 l3]]]]; try done.
  destruct (hex4 h1 h2 h3 h4) as [u|]; [|done]. simpl.
  destruct (is_high_surrogate u).
  - destruct l3 as [|b [|v [|k1 [|k2 [|k3 [|k4 l9]]]]]]; try done. destruct (_ && _); [|done].
    destruct (hex4 k1 k2 k3 k4) as [lo|]; [|done]. simpl. destruct (is_low_surrogate lo); [|done].
    rec_call IH.
  - destruct (is_low_surrogate u); [done|]. rec_call IH.
Qed.

Lemma parse_string_length l s rest :
  parse_string l = Some (s, rest) -> S (length rest) < length l.
Proof.
  destruct l as [|c l]; [done|]. simpl. case_match; [|done].
  destruct (parse_chars l) as [[s' r]|] eqn:E; [|done]. intros [= _ <-].
  apply parse_chars_length in E. lia.
Qed.

Lemma parse_keyword_length kw l rest :
  parse_keyword kw l = Some rest -> length rest + length kw = length l.
Proof.
  revert l; induction kw as [|k kw IH]; intros l; simpl; [intros [= <-]; lia|].
  destruct l as [|c l]; [done|]. case_match; [|done]. intros Hk. apply IH in Hk. simpl. lia.
Qed.

(** Collect the lengths the hypotheses state. *)
Ltac lengths :=
  repeat match goal with
  | H : skip_ws ?x = ?y |- _ =>
      let Hl := fresh "Hl" in pose proof (skip_ws_length x) as Hl; rewrite H in Hl; clear H
  | H : _ <$> ?o = Some _ |- _ =>
      let E := fresh "E" in
      destruct o as [x|] eqn:E; simpl in H; [|done];
      try destruct x; simplify_eq
  | H : parse_number _ = Some _ |- _ => apply parse_number_length in H
  | H : parse_string _ = Some _ |- _ => apply parse_string_length in H
  | H : parse_keyword _ _ = Some _ |- _ => apply parse_keyword_length in H
  end; cbn [length] in *.

(** Apply the induction hypotheses of [parse_length] and conclude. *)
Local Ltac use_ih IHv IHe IHm :=
  repeat match goal with
  | H : parse_value _ _ = Some (_, _) |- _ => apply IHv in H
  | H : parse_elements _ _ _ = Some (_, _) |- _ => apply IHe in H
  | H : parse_members _ _ _ = Some (_, _) |- _ => apply IHm in H
  end; lia.

(** Every successful call consumes input. *)
Lemma parse_length f :
  (forall l v rest, parse_value f l = Some (v, rest) -> length rest < length l)
  /\ (forall l acc v rest, parse_elements f l acc = Some (v, rest) -> length rest < length l)
  /\ (forall l acc v rest, parse_members f l acc = Some (v, rest) -> length rest < length l).
Proof.
  induction f as [|f (IHv & IHe & IHm)]; [done|].
  split_and!.
  - intros l v rest. cbn [parse_value]. repeat case_match; intros Hp; simplify_eq; lengths;
      use_ih IHv IHe IHm.
  - intros l acc v rest. cbn [parse_elements].
    destruct (parse_value f l) as [[v0 r0]|] eqn:Hv; [|done]. simpl.
    repeat case_match; intros Hp; simplify_eq; lengths; use_ih IHv IHe IHm.
  - intros l acc v rest. cbn [parse_members].
    destruct (parse_string (skip_ws l)) as [[k r0]|] eqn:Hk; [|done]. simpl.
    pose proof (skip_ws_length l). apply parse_string_length in Hk.
    repeat case_match; try done; simpl;
      try (destruct (parse_value f _) as [[v0 r1]|] eqn:Hv; [|done]; simpl);
      repeat case_match; intros Hp; simplify_eq; lengths; use_ih IHv IHe IHm.
Qed.

Lemma option_bind_Some {A B} (x : A) (k : A -> option B) : (Some x ≫= k) = k x.
Proof. done. Qed.

(** The unfolding equations of the parser, one step of fuel at a time. *)
Lemma parse_value_S f l :
  parse_value (S f) l =
  match skip_ws l with
  | c :: l' =>
      let l0 := c :: l' in
      match code c with
      | 123%N =>
          match skip_ws l' with
          | c' :: l'' => if (code c' =? 125)%N then Some (JObj [], l'') else parse_members f l' []
          | [] => None
          end
      | 91%N =>
          match skip_ws l' with
          | c' :: l'' => if (code c' =? 93)%N then Some (JArr [], l'') else parse_elements f l' []
          | [] => None
          end
      | 34%N => (fun '(s, rest) => (JStr s, rest)) <$> parse_string l0
      | 116%N => (fun rest => (JBool true, rest)) <$> parse_keyword ["t";"r";"u";"e"]%char l0
      | 102%N => (fun rest => (JBool false, rest)) <$> parse_keyword ["f";"a";"l";"s";"e"]%char l0
      | 110%N => (fun rest => (JNull, rest)) <$> parse_keyword ["n";"u";"l";"l"]%char l0
      | _ => (fun '(n, rest) => (JNum n, rest)) <$> parse_number l0
      end
  | [] => None
  end.
Proof. reflexivity. Qed.

Lemma parse_elements_S f l acc :
  parse_elements (S f) l acc =
  parse_value f l ≫= fun '(v, rest) =>
    match skip_ws rest with
    | c :: rest' =>
        if (code c =? 44)%N then parse_elements f rest' (acc ++ [v])
        else if (code c =? 93)%N then Some (JArr (acc ++ [v]), rest')
        else None
    | [] => None
    end.
Proof. reflexivity. Qed.

Lemma parse_members_S f l acc :
  parse_members (S f) l acc =
  parse_string (skip_ws l) ≫= fun '(k, rest) =>
    match skip_ws rest with
    | c :: rest' =>
        if negb (code c =? 58)%N then None else
        parse_value f rest' ≫= fun '(v, rest'') =>
          match skip_ws rest'' with
          | c' :: r =>
              if (code c' =? 44)%N then parse_members f r (props_set k v acc)
              else if (code c' =? 125)%N then Some (JObj (props_set k v acc), r)
              else None
          | [] => None
          end
    | [] => None
    end.
Proof. reflexivity. Qed.

(** One more unit of fuel changes nothing once the fuel covers twice the
    input. *)
Lemma parse_fuel_S f :
  (forall l, 2 * length l + 1 <= f -> parse_value (S f) l = parse_value f l)
  /\ (forall l acc, 2 * length l + 2 <= f -> parse_elements (S f) l acc = parse_elements f l acc)
  /\ (forall l acc, 2 * length l + 2 <= f -> parse_members (S f) l acc = parse_members f l acc).
Proof.
  induction f as [|f (IHv & IHe & IHm)]; [split_and!; intros; lia|]. split_and!.
  - intros l Hf. rewrite !parse_value_S. destruct (skip_ws l) as [|c l'] eqn:Hs; [done|].
    pose proof (skip_ws_length l) as Hl. rewrite Hs in Hl. cbn [length] in Hl.
    rewrite (IHe l' []), (IHm l' []) by lia. reflexivity.
  - intros l acc Hf. rewrite !parse_elements_S, IHv by lia.
    destruct (parse_value f l) as [[v r]|] eqn:Hv; [|done]. rewrite !option_bind_Some. cbv beta match.
    apply (proj1 (parse_length f)) in Hv.
    destruct (skip_ws r) as [|c r'] eqn:Hs; [done|].
    pose proof (skip_ws_length r) as Hl. rewrite Hs in Hl. cbn [length] in Hl.
    by rewrite IHe by lia.
  - intros l acc Hf. rewrite !parse_members_S.
    destruct (parse_string (skip_ws l)) as [[k r]|] eqn:Hk; [|done]. rewrite !option_bind_Some. cbv beta match.
    apply parse_string_length in Hk. pose proof (skip_ws_length l).
    destruct (skip_ws r) as [|c r'] eqn:Hs; [done|].
    pose proof (skip_ws_length r) as Hl. rewrite Hs in Hl. cbn [length] in Hl.
    destruct (negb _); [done|]. rewrite IHv by lia.
    destruct (parse_value f r') as [[v r2]|] eqn:Hv; [|done]. rewrite !option_bind_Some. cbv beta match.
    apply (proj1 (parse_length f)) in Hv.
    destruct (skip_ws r2) as [|c' r3] eqn:Hs2; [done|].
    pose proof (skip_ws_length r2) as Hl2. rewrite Hs2 in Hl2. cbn [length] in Hl2.
    by rewrite IHm by lia.
Qed.

Lemma parse_value_fuel_mono l f k :
  2 * length l + 1 <= f -> parse_value (k + f) l = parse_value f l.
Proof.
  intros Hf. induction k as [|k IH]; [done|].
  rewrite <-IH. apply (proj1 (parse_fuel_S (k + f))). lia.
Qed.

(** Any two fuels above [2 * length l + 1] give the same answer. *)
Lemma parse_value_fuel_eq l f g :
  2 * length l + 1 <= f -> 2 * length l + 1 <= g -> parse_value f l = parse_value g l.
Proof.
  intros Hf Hg. destruct (decide (f <= g)).
  - replace g with ((g - f) + f) by lia. by rewrite parse_value_fuel_mono.
  - replace f with ((f - g) + g) by lia. by rewrite parse_value_fuel_mono.
Qed.

(** [Json.parse] never runs out of fuel: whatever the text, the parser
    run with any fuel of at least [2 * length + 1] gives the answer of
    [Json.parse], so the fuel [2 * length + 2] that [Json.parse] gives
    itself is never the reason it refuses a text. *)
Lemma parse_fuel_adequate text f :
  2 * length (String.list_ascii_of_string text) + 1 <= f ->
  Json.parse text = parse_with f text.
Proof.
  intros Hf. unfold Json.parse, parse_with. cbv zeta.
  by rewrite (parse_value_fuel_eq _ (2 * _ + 2) f) by lia.
Qed.

End JsonFuel.
