(* ===== verification/JsonText.v ===== *)
(** * JSON texts: [JSON.stringify] and the round trip through [Json.parse]

    The model answers with a JSON text; the development takes the text
    of a value as [JSON.stringify] (ECMAScript SerializeJSONProperty)
    writes it: [null], [true], [false], Number::toString of the
    integer (of magnitude at most [2^53] to be read back exactly), strings quoted by QuoteJSONString, arrays with [undefined]
    written [null], objects with their keys in [[OwnPropertyKeys]] order
    and the [undefined] properties left out. [JSON.stringify(undefined)]
    is [undefined] ([None]).

    The theorem of the file, [parse_stringify], is the round trip:
    [Json.parse] reads the text back as the value [JSON.parse] returns
    for it ([json_value]), with the fuel it is given. *)

From S2P Require Import Prelude JsValue JsObject Json.
From Stdlib Require Import Ascii DecimalString DecimalFacts DecimalPos.

Module JsonText.
Import Json.

(** ** Numbers *)

(** The characters of Number::toString. *)
Definition number_chars (n : Z) : list ascii :=
  String.list_ascii_of_string (number_to_string n).

(** The value of decimal digits read after [acc]. *)
Fixpoint uval (d : Decimal.uint) (acc : Z) : Z :=
  match d with
  | Decimal.Nil => acc
  | Decimal.D0 d => uval d (acc * 10 + 0) | Decimal.D1 d => uval d (acc * 10 + 1)
  | Decimal.D2 d => uval d (acc * 10 + 2) | Decimal.D3 d => uval d (acc * 10 + 3)
  | Decimal.D4 d => uval d (acc * 10 + 4) | Decimal.D5 d => uval d (acc * 10 + 5)
  | Decimal.D6 d => uval d (acc * 10 + 6) | Decimal.D7 d => uval d (acc * 10 + 7)
  | Decimal.D8 d => uval d (acc * 10 + 8) | Decimal.D9 d => uval d (acc * 10 + 9)
  end%Z.

(** A text after a number: empty, or a character that cannot continue
    it (no digit, [.], [e] or [E]). *)
Definition ends_number (rest : list ascii) : Prop :=
  match rest with
  | [] => True
  | c :: _ => digit_value c = None /\ code c <> 46%N /\ code c <> 101%N /\ code c <> 69%N
  end.

(** ** Strings *)

Definition chr (n : N) : ascii := Ascii.ascii_of_N n.

Definition hex_digit (n : N) : ascii := chr (if (n <? 10)%N then 48 + n else 87 + n)%N.

(** QuoteJSONString on one code unit: the two-character escapes, the
    [\u00XX] escape (lower-case hexadecimal) of the other control
    characters, the character itself otherwise. *)
Definition escape_char (c : ascii) : list ascii :=
  let n := code c in
  if (n =? 8)%N then [chr 92; "b"%char]
  else if (n =? 9)%N then [chr 92; "t"%char]
  else if (n =? 10)%N then [chr 92; "n"%char]
  else if (n =? 12)%N then [chr 92; "f"%char]
  else if (n =? 13)%N then [chr 92; "r"%char]
  else if (n =? 34)%N then [chr 92; c]
  else if (n =? 92)%N then [chr 92; c]
  else if (n <? 32)%N then [chr 92; "u"%char; "0"%char; "0"%char; hex_digit (n / 16); hex_digit (n mod 16)]%N
  else [c].

(** QuoteJSONString. *)
Definition quote (s : string) : list ascii :=
  chr 34 :: flat_map escape_char (String.list_ascii_of_string s) ++ [chr 34].

(** ** Values *)

(** The items of an array or the members of an object, separated by
    commas. *)
Fixpoint join (ts : list (list ascii)) : list ascii :=
  match ts with
  | [] => []
  | [t] => t
  | t :: ts' => t ++ ","%char :: join ts'
  end.

Fixpoint assoc {A} (k : string) (l : list (string * A)) : option A :=
  match l with
  | [] => None
  | (k', a) :: l' => if String.eqb k k' then Some a else assoc k l'
  end.

(** A member of an object: the quoted key, a colon, the value. *)
Definition member (k : string) (t : list ascii) : list ascii := quote k ++ ":"%char :: t.

Definition null_chars : list ascii := ["n"; "u"; "l"; "l"]%char.
Definition true_chars : list ascii := ["t"; "r"; "u"; "e"]%char.
Definition false_chars : list ascii := ["f"; "a"; "l"; "s"; "e"]%char.

(** SerializeJSONProperty: [None] for [undefined]. An object's members
    are written in [[OwnPropertyKeys]] order, each property's value
    serialized once ([assoc] finds it by key). *)
Fixpoint serialize (v : jsval) : option (list ascii) :=
  match v with
  | JUndefined => None
  | JNull => Some null_chars
  | JBool b => Some (if b then true_chars else false_chars)
  | JNum n => Some (number_chars n)
  | JStr s => Some (quote s)
  | JArr vs => Some ("["%char :: join (map (fun w => default null_chars (serialize w)) vs) ++ ["]"%char])
  | JObj ps =>
      let sps := map (fun kv => (kv.1, serialize kv.2)) ps in
      Some ("{"%char
            :: join (omap (fun k => member k <$> (assoc k sps ≫= id))
                          (own_keys ps))
            ++ ["}"%char])
  end.

(** [JSON.stringify(v)]. *)
Definition stringify (v : jsval) : option string :=
  String.string_of_list_ascii <$> serialize v.

Definition defined (v : jsval) : bool := match v with JUndefined => false | _ => true end.

(** The value [JSON.parse] returns for the text of [v]: [undefined] items
    are [null], [undefined] members are left out, members come in
    [[OwnPropertyKeys]] order. *)
Fixpoint json_value (v : jsval) : jsval :=
  match v with
  | JUndefined => JNull
  | JArr vs => JArr (map json_value vs)
  | JObj ps =>
      let jps := map (fun kv => (kv.1, if defined kv.2 then Some (json_value kv.2) else None)) ps in
      JObj (omap (fun k => (fun j => (k, j)) <$> (assoc k jps ≫= id)) (own_keys ps))
  | _ => v
  end.

(** A value [JSON.stringify] and [JSON.parse] carry exactly: the keys of
    every object are distinct, and every number is an integer a double
    holds exactly. *)
Fixpoint deep_wf (v : jsval) : bool :=
  match v with
  | JArr vs => forallb deep_wf vs
  | JObj ps => bool_decide (props_wf ps) && forallb (fun kv => deep_wf kv.2) ps
  | JNum n => bool_decide (Z.abs n <= max_safe)%Z
  | _ => true
  end.

(** ** The predicates of the round trip *)

(** [t] is read as [j] before any text that cannot continue a number,
    with any fuel above its length. *)
Definition reads (t : list ascii) (j : jsval) : Prop :=
  forall fuel rest, ends_number rest -> length t < fuel ->
  parse_value fuel (t ++ rest) = Some (j, rest).

(** A value's text starts with a character that is neither whitespace
    nor a closing bracket. *)
Definition starts_value (t : list ascii) : Prop :=
  match t with
  | c :: _ => is_ws c = false /\ code c <> 93%N /\ code c <> 125%N
  | [] => False
  end.

(** The members of an object, as the keys, texts and values the text
    and the parsed object are made of. *)
Definition object_items (ps : props) : list (string * list ascii * jsval) :=
  omap (fun k => w ← props_lookup k ps; t ← serialize w; Some (k, t, json_value w)) (own_keys ps).

(** ** Numbers read back *)

Lemma digits_uint d rest acc :
  ends_number rest ->
  digits (String.list_ascii_of_string (NilEmpty.string_of_uint d) ++ rest) acc = (uval d acc, rest).
Proof.
  intros Hr. revert acc; induction d; intros acc; simpl; try apply IHd.
  destruct rest as [|c rest]; simpl; [done|]. destruct Hr as [-> _]. done.
Qed.

Lemma of_uint_acc_uval d acc : Zpos (Pos.of_uint_acc d acc) = uval d (Zpos acc).
Proof.
  revert acc; induction d; intros acc; simpl; rewrite ?IHd; f_equal; lia.
Qed.

Lemma frac_tail m rest : ends_number rest -> parse_frac m rest = Some (m, 0, rest).
Proof.
  destruct rest as [|c rest]; [done|]. intros (_ & H1 & _). unfold parse_frac.
  by rewrite (proj2 (N.eqb_neq _ _) H1).
Qed.

Lemma exp_tail rest : ends_number rest -> parse_exp rest = Some (0%Z, rest).
Proof.
  destruct rest as [|c rest]; [done|]. intros (_ & _ & H2 & H3). unfold parse_exp.
  by rewrite (proj2 (N.eqb_neq _ _) H2), (proj2 (N.eqb_neq _ _) H3).
Qed.

Lemma uval_pos u k : uval u (Z.of_nat (S k)) = Zpos (Pos.of_uint_acc u (Pos.of_succ_nat k)).
Proof. by rewrite of_uint_acc_uval. Qed.

(** The digits of a positive number, after an optional minus sign. *)
Lemma parse_number_pos (neg : bool) p rest :
  ends_number rest -> (Zpos p <= max_safe)%Z ->
  parse_number ((if neg then ["-"%char] else [])
                ++ String.list_ascii_of_string (NilEmpty.string_of_uint (Pos.to_uint p)) ++ rest)
  = Some (if neg then Zneg p else Zpos p, rest).
Proof.
  intros Hr Hmax. pose proof (Unsigned.of_to p) as Hof.
  pose proof (Unsigned.to_uint_nonnil p) as Hnn.
  pose proof (Unsigned.to_of (Pos.to_uint p)) as Hto. rewrite Hof in Hto. simpl in Hto.
  destruct (Pos.to_uint p) as [|u|u|u|u|u|u|u|u|u|u] eqn:E; [done| |..].
  { exfalso. rewrite unorm_D0 in Hto. unfold Decimal.unorm in Hto.
    destruct (Decimal.nzhead u) eqn:Hz; [injection Hto as ->; done|..];
      pose proof (nb_digits_nzhead u) as Hle; rewrite Hz, <-Hto in Hle; simpl in Hle; lia. }
  all: simpl in Hof; injection Hof as <-; apply Z.leb_le in Hmax;
    destruct neg; unfold parse_number; simpl; rewrite digits_uint by done; simpl.
  all: rewrite frac_tail by done; simpl; rewrite exp_tail by done; simpl;
    rewrite uval_pos; unfold integral; simpl; change (10 ^ (0 - Z.of_nat 0))%Z with 1%Z;
    rewrite Z.mul_1_r; cbv [Pos.succ]; rewrite Z.abs_eq, Hmax by lia; try rewrite <-Pos2Z.opp_pos; done.
Qed.

Lemma string_of_uint_nonnil d : d <> Decimal.Nil -> NilZero.string_of_uint d = NilEmpty.string_of_uint d.
Proof. by destruct d. Qed.

(** Number::toString is read back by the number grammar. *)
Lemma parse_number_chars n rest :
  ends_number rest -> (Z.abs n <= max_safe)%Z -> parse_number (number_chars n ++ rest) = Some (n, rest).
Proof.
  intros Hr Hn. unfold number_chars, number_to_string.
  destruct n as [|p|p]; simpl.
  - unfold parse_number. simpl. rewrite frac_tail by done. simpl. by rewrite exp_tail.
  - rewrite string_of_uint_nonnil by apply Unsigned.to_uint_nonnil.
    apply (parse_number_pos false p rest Hr). simpl in Hn. lia.
  - rewrite string_of_uint_nonnil by apply Unsigned.to_uint_nonnil.
    apply (parse_number_pos true p rest Hr). simpl in Hn. lia.
Qed.

(** ** Strings read back *)

Lemma parse_chars_escape c rest :
  parse_chars (escape_char c ++ rest) = (fun '(s, r) => (c :: s, r)) <$> parse_chars rest.
Proof. destruct c as [[] [] [] [] [] [] [] []]; reflexivity. Qed.

Lemma parse_chars_quote l rest :
  parse_chars (flat_map escape_char l ++ chr 34 :: rest) = Some (l, rest).
Proof.
  induction l as [|c l IH]; [reflexivity|].
  change (flat_map escape_char (c :: l)) with (escape_char c ++ flat_map escape_char l).
  by rewrite <-app_assoc, parse_chars_escape, IH.
Qed.

Lemma parse_string_quote s rest : parse_string (quote s ++ rest) = Some (s, rest).
Proof.
  unfold quote. rewrite <-app_comm_cons, <-app_assoc. cbn [app].
  unfold parse_string. cbn [code chr]. cbv iota beta. rewrite parse_chars_quote. simpl.
  by rewrite String.string_of_list_ascii_of_string.
Qed.

(** ** Values read back *)

Lemma fuel_S fuel n : n < fuel -> exists f, fuel = S f /\ n <= f.
Proof. destruct fuel as [|f]; [lia|]. exists f. lia. Qed.

Lemma reads_null : reads null_chars JNull.
Proof. intros fuel rest _ Hf. destruct (fuel_S fuel _ Hf) as (f & -> & _). reflexivity. Qed.

Lemma reads_bool (b : bool) : reads (if b then true_chars else false_chars) (JBool b).
Proof. intros fuel rest _ Hf. destruct (fuel_S fuel _ Hf) as (f & -> & _). by destruct b. Qed.

Lemma reads_number n : (Z.abs n <= max_safe)%Z -> reads (number_chars n) (JNum n).
Proof.
  intros Hn fuel rest Hr Hf. destruct (fuel_S fuel _ Hf) as (f & -> & _).
  transitivity ((fun '(m, r) => (JNum m, r)) <$> parse_number (number_chars n ++ rest));
    [|by rewrite parse_number_chars].
  unfold number_chars, number_to_string.
  destruct n as [|p|p]; [reflexivity|..]; simpl; destruct (Pos.to_uint p); reflexivity.
Qed.

Lemma reads_string s : reads (quote s) (JStr s).
Proof.
  intros fuel rest _ Hf. destruct (fuel_S fuel _ Hf) as (f & -> & _).
  assert (parse_value (S f) (quote s ++ rest)
          = (fun '(s', r) => (JStr s', r)) <$> parse_string (quote s ++ rest)) as -> by reflexivity.
  by rewrite parse_string_quote.
Qed.

Lemma starts_value_number n : starts_value (number_chars n).
Proof.
  unfold number_chars, number_to_string.
  destruct n as [|p|p]; [done|..]; simpl; destruct (Pos.to_uint p); done.
Qed.

(** The text after a value inside an array or an object starts with a
    comma or a closing bracket. *)
Ltac ends_delim := simpl; repeat split; discriminate.

(** The items of an array, each read as its value. *)
Lemma parse_elements_join (items : list (list ascii * jsval)) F rest acc :
  items <> [] -> Forall (fun it => reads it.1 it.2) items ->
  S (length (join (map fst items))) < F ->
  parse_elements F (join (map fst items) ++ "]"%char :: rest) acc
  = Some (JArr (acc ++ map snd items), rest).
Proof.
  revert F acc; induction items as [|[t j] items IH]; intros F acc Hne Hall Hf; [done|].
  apply Forall_cons in Hall as [Ht Hall]. simpl in Ht.
  destruct (fuel_S F _ Hf) as (f & -> & Hf').
  destruct items as [|it items'].
  - cbn [parse_elements]. simpl in Hf'. rewrite Ht by (ends_delim || lia). reflexivity.
  - change (join (map fst ((t, j) :: it :: items'))) with (t ++ ","%char :: join (map fst (it :: items'))) in *.
    rewrite length_app in Hf'. cbn [length] in Hf'.
    rewrite <-app_assoc. cbn [parse_elements]. rewrite Ht by (ends_delim || lia).
    simpl. rewrite IH; [|done|done|lia].
    by rewrite <-app_assoc.
Qed.


(** The members of an object, each read as its value. *)
Lemma parse_members_join (items : list (string * list ascii * jsval)) F rest acc :
  items <> [] -> Forall (fun it => reads it.1.2 it.2) items ->
  NoDup (map (fun it => it.1.1) items) ->
  Forall (fun it => it.1.1 ∉ props_keys acc) items ->
  S (length (join (map (fun it => member it.1.1 it.1.2) items))) < F ->
  parse_members F (join (map (fun it => member it.1.1 it.1.2) items) ++ "}"%char :: rest) acc
  = Some (JObj (acc ++ map (fun it => (it.1.1, it.2)) items), rest).
Proof.
  revert F acc; induction items as [|[[k t] j] items IH]; intros F acc Hne Hall Hnd Hfresh Hf; [done|].
  apply Forall_cons in Hall as [Ht Hall]. simpl in Ht.
  apply Forall_cons in Hfresh as [Hk Hfresh]. simpl in Hk.
  apply NoDup_cons in Hnd as [Hknd Hnd].
  destruct (fuel_S F _ Hf) as (f & -> & Hf').
  assert (forall X, parse_members (S f) (member k t ++ X) acc
                    = parse_value f (t ++ X) ≫= fun '(v, rest'') =>
                        match skip_ws rest'' with
                        | c' :: r =>
                            if (code c' =? 44)%N then parse_members f r (props_set k v acc)
                            else if (code c' =? 125)%N then Some (JObj (props_set k v acc), r)
                            else None
                        | [] => None
                        end) as Hstep.
  { intros X. cbn [parse_members].
    assert (skip_ws (member k t ++ X) = member k t ++ X) as -> by reflexivity.
    unfold member. rewrite <-app_assoc, parse_string_quote. reflexivity. }
  destruct items as [|it items'].
  - change (join (map (fun it => member it.1.1 it.1.2) [(k, t, j)])) with (member k t) in *.
    unfold member in Hf' at 1. rewrite length_app in Hf'. cbn [length] in Hf'.
    rewrite Hstep, Ht by (ends_delim || lia). simpl. by rewrite props_set_fresh.
  - change (join (map (fun it => member it.1.1 it.1.2) ((k, t, j) :: it :: items')))
      with (member k t ++ ","%char :: join (map (fun it => member it.1.1 it.1.2) (it :: items'))) in *.
    unfold member in Hf' at 1. rewrite !length_app in Hf'. cbn [length] in Hf'.
    rewrite <-app_assoc, Hstep, <-app_comm_cons, Ht by (ends_delim || lia). simpl.
    rewrite props_set_fresh by done.
    rewrite IH; [by rewrite <-app_assoc|done|done|done| |lia].
    apply Forall_forall. intros x Hx. rewrite Forall_forall in Hfresh.
    assert (x.1.1 ∈ map (fun it => it.1.1) (it :: items')) as Hin
      by apply list_elem_of_In, (in_map (fun it => it.1.1) _ x), list_elem_of_In, Hx.
    assert (x.1.1 <> k) by (intros Heq; apply Hknd; rewrite <-Heq; exact Hin).
    unfold props_keys. rewrite map_app. simpl. apply not_elem_of_app.
    split; [by apply Hfresh|set_solver].
Qed.

Lemma skip_ws_starts t r : starts_value t -> skip_ws (t ++ r) = t ++ r.
Proof. destruct t as [|c t]; [done|]. intros [Hws _]. simpl. by rewrite Hws. Qed.

Lemma starts_join t l : starts_value t -> starts_value (join (t :: l)).
Proof. destruct l, t; done. Qed.

(** After an opening bracket, a value that is not a closing bracket. *)
Lemma match_starts {X} t r (n : N) (a : list ascii -> option X) (b : option X) :
  starts_value t -> n = 93%N \/ n = 125%N ->
  match t ++ r with [] => None | c' :: l'' => if (code c' =? n)%N then a l'' else b end = b.
Proof.
  destruct t as [|c t]; [done|]. intros (_ & H93 & H125) Hn. simpl.
  destruct (N.eqb_spec (code c) n); [destruct Hn; subst; done|done].
Qed.

Lemma parse_value_array f l :
  parse_value (S f) ("["%char :: l)
  = match skip_ws l with
    | [] => None
    | c' :: l'' => if (code c' =? 93)%N then Some (JArr [], l'') else parse_elements f l []
    end.
Proof. reflexivity. Qed.

Lemma parse_value_object f l :
  parse_value (S f) ("{"%char :: l)
  = match skip_ws l with
    | [] => None
    | c' :: l'' => if (code c' =? 125)%N then Some (JObj [], l'') else parse_members f l []
    end.
Proof. reflexivity. Qed.

(** An array whose items read as their values. *)
Lemma reads_array (items : list (list ascii * jsval)) :
  Forall (fun it => reads it.1 it.2 /\ starts_value it.1) items ->
  reads ("["%char :: join (map fst items) ++ ["]"%char]) (JArr (map snd items)).
Proof.
  intros Hall fuel rest _ Hf. cbn [length] in Hf. rewrite length_app in Hf. cbn [length] in Hf.
  destruct (fuel_S fuel _ Hf) as (f & -> & Hf').
  destruct items as [|[t j] items']; [reflexivity|].
  pose proof (Forall_inv Hall) as [_ Hst]. simpl in Hst.
  rewrite <-app_comm_cons, parse_value_array, <-app_assoc.
  rewrite skip_ws_starts, match_starts by (auto; by apply (starts_join t (map fst items'))).
  change (["]"%char] ++ rest) with ("]"%char :: rest).
  rewrite parse_elements_join; [done|done| |lia].
  eapply Forall_impl; [exact Hall|]. naive_solver.
Qed.

Lemma starts_member k t : starts_value (member k t).
Proof. unfold member, quote. simpl. repeat split; discriminate. Qed.

(** An object whose members read as their values, with distinct keys. *)
Lemma reads_object (items : list (string * list ascii * jsval)) :
  Forall (fun it => reads it.1.2 it.2) items -> NoDup (map (fun it => it.1.1) items) ->
  reads ("{"%char :: join (map (fun it => member it.1.1 it.1.2) items) ++ ["}"%char])
        (JObj (map (fun it => (it.1.1, it.2)) items)).
Proof.
  intros Hall Hnd fuel rest _ Hf. cbn [length] in Hf. rewrite length_app in Hf. cbn [length] in Hf.
  destruct (fuel_S fuel _ Hf) as (f & -> & Hf').
  destruct items as [|[[k t] j] items']; [reflexivity|].
  rewrite <-app_comm_cons, parse_value_object, <-app_assoc.
  rewrite skip_ws_starts, match_starts
    by (auto; by apply (starts_join (member k t)), starts_member).
  change (["}"%char] ++ rest) with ("}"%char :: rest).
  rewrite parse_members_join; [done|done|done|done| |lia].
  apply Forall_forall. set_solver.
Qed.

Lemma assoc_map {A} (f : jsval -> A) k ps :
  assoc k (map (fun kv => (kv.1, f kv.2)) ps) = f <$> props_lookup k ps.
Proof. induction ps as [|[k' v] ps IH]; simpl; [done|]. by destruct (String.eqb k k'). Qed.

Lemma serialize_None v : serialize v = None -> v = JUndefined.
Proof. by destruct v. Qed.

Lemma serialize_object ps :
  serialize (JObj ps)
  = Some ("{"%char :: join (map (fun it => member it.1.1 it.1.2) (object_items ps)) ++ ["}"%char]).
Proof.
  cbn [serialize]. do 4 f_equal. apply omap_fmap_ext. intros k _.
  rewrite assoc_map. destruct (props_lookup k ps) as [w|]; simpl; [|done].
  by destruct (serialize w).
Qed.

Lemma json_value_object ps :
  json_value (JObj ps) = JObj (map (fun it => (it.1.1, it.2)) (object_items ps)).
Proof.
  cbn [json_value]. f_equal. apply omap_fmap_ext. intros k _.
  rewrite (assoc_map (fun w => if defined w then Some (json_value w) else None)). destruct (props_lookup k ps) as [w|]; simpl; [|done].
  destruct (serialize w) eqn:E; [by destruct w|]. by rewrite (serialize_None w E).
Qed.

Lemma object_items_keys ps :
  props_wf ps -> NoDup (map (fun it => it.1.1) (object_items ps)).
Proof.
  intros Hwf. apply NoDup_omap_keys.
  - intros k [[k' t] j] Hk. destruct (props_lookup k ps) as [w|]; simpl in Hk; [|done].
    destruct (serialize w); simpl in Hk; [|done]. by injection Hk as <-.
  - unfold props_wf in Hwf. by rewrite own_keys_perm.
Qed.

Lemma object_items_reads ps (P : list ascii -> jsval -> Prop) :
  Forall (fun kv => forall t, serialize kv.2 = Some t -> P t (json_value kv.2)) ps ->
  Forall (fun it => P it.1.2 it.2) (object_items ps).
Proof.
  intros Hall. apply Forall_omap. intros k [[k' t] j] _ Hk.
  destruct (props_lookup k ps) as [w|] eqn:Hw; simpl in Hk; [|done].
  destruct (serialize w) as [t'|] eqn:Ht; simpl in Hk; [|done]. injection Hk as <- <- <-.
  exact (props_lookup_Forall (fun w => forall t, serialize w = Some t -> P t (json_value w))
           ps k w Hall Hw t' Ht).
Qed.

(** Every text [serialize] writes is read back as [json_value], for a
    value whose objects have distinct keys. *)
Lemma serialize_reads v :
  forall t, serialize v = Some t -> deep_wf v = true -> reads t (json_value v) /\ starts_value t.
Proof.
  induction v as [| |b|n|s|vs IH|ps IH] using jsval_deep_ind; intros t Hs Hwf;
    [done|..|rewrite serialize_object in Hs]; injection Hs as <-.
  - split; [apply reads_null|done].
  - split; [apply reads_bool|by destruct b].
  - split; [apply reads_number; by apply bool_decide_eq_true in Hwf|apply starts_value_number].
  - split; [apply reads_string|done].
  - split; [|done]. simpl in Hwf. rewrite forallb_forall in Hwf.
    pose proof (reads_array (map (fun w => (default null_chars (serialize w), json_value w)) vs)) as R.
    rewrite !map_map in R. apply R, Forall_map, Forall_forall. intros w Hw. simpl.
    rewrite Forall_forall in IH. destruct (serialize w) as [t|] eqn:E; simpl.
    + apply IH; [done|done|apply Hwf, list_elem_of_In, Hw].
    + rewrite (serialize_None w E). split; [apply reads_null|done].
  - simpl in Hwf. apply andb_prop in Hwf as [Hwf Hall]. rewrite forallb_forall in Hall. apply bool_decide_eq_true in Hwf.
    split; [|done].
    rewrite json_value_object. apply reads_object; [|by apply object_items_keys].
    apply object_items_reads. apply Forall_forall. intros [k w] Hkw t Ht. simpl in *.
    rewrite Forall_forall in IH. apply (IH (k, w) Hkw t Ht), Hall, list_elem_of_In, Hkw.
Qed.

(** [JSON.parse(JSON.stringify(v))]: the text is read back, within the
    fuel [Json.parse] gives itself, as the value [json_value v]; for a
    value without [undefined] and with no array-index keys, that is [v]
    itself. *)
Theorem parse_stringify v s :
  stringify v = Some s -> deep_wf v = true -> Json.parse s = Some (json_value v).
Proof.
  unfold stringify. destruct (serialize v) as [t|] eqn:E; [|done]. intros [= <-] Hwf.
  unfold Json.parse. rewrite String.list_ascii_of_string_of_list_ascii.
  destruct (serialize_reads v t E Hwf) as [Hr _].
  specialize (Hr (2 * length t + 2) [] I ltac:(lia)). rewrite List.app_nil_r in Hr.
  by rewrite Hr.
Qed.

(** A text that starts with a backquote, as a Markdown code fence does, is
    not JSON. *)
Lemma parse_backquote t : Json.parse (String "`" t) = None.
Proof. reflexivity. Qed.

End JsonText.
