(* ===== verification/Types.v ===== *)
(** * The application types of [src/types.ts]

    [ExtractedElement] and [ProcessingResult] as the TypeScript types
    declare them, and [AppState], the state of the [App] component.
    The result the service builds at run time is a JavaScript object whose
    fields need not have the declared types (the service copies what the
    model returned); [ProcessingResult.t] therefore keeps the dynamic
    values, and [typed_element] recovers the declared view of an element
    when the value has it. *)

From S2P Require Import Prelude JsValue JsObject.

(** [interface ExtractedElement] *)
Module ExtractedElement.
Record t := mk {
  tag : string;
  text : string;
  attributes : list (string * string);  (** [Record<string, string>],
                                             in creation order *)
  html : string
}.
End ExtractedElement.

(** [interface ProcessingResult]: [elements] are the element objects the
    service built, [count] and [selectorUsed] the values it returned. *)
Module ProcessingResult.
Record t := mk {
  elements : list jsval;
  count : jsval;
  selectorUsed : jsval;
  error : option string
}.
End ProcessingResult.

(** [activeTab: 'preview' | 'source'] *)
Inductive Tab := TabPreview | TabSource.

#[export] Instance Tab_eq_dec : EqDecision Tab.
Proof. solve_decision. Defined.

(** [interface AppState] *)
Module AppState.
Record t := mk {
  url : string;
  html : string;
  selector : string;
  result : option ProcessingResult.t;
  isLoading : bool;
  activeTab : Tab
}.
End AppState.

(** ** The declared view of a dynamic value *)

Definition as_string (v : jsval) : option string :=
  match v with JStr s => Some s | _ => None end.

(** A [Record<string, string>]: an object whose own values are strings. *)
Fixpoint string_props (ps : props) : option (list (string * string)) :=
  match ps with
  | [] => Some []
  | (k, JStr s) :: ps' => (fun l => (k, s) :: l) <$> string_props ps'
  | _ :: _ => None
  end.

Definition as_string_record (v : jsval) : option (list (string * string)) :=
  match v with JObj ps => string_props ps | _ => None end.

(** An element object has the type [ExtractedElement] when its four
    fields have the declared types. *)
Definition typed_element (v : jsval) : option ExtractedElement.t :=
  match v with
  | JObj ps =>
      tag ← props_lookup "tag" ps ≫= as_string;
      text ← props_lookup "text" ps ≫= as_string;
      attrs ← props_lookup "attributes" ps ≫= as_string_record;
      html ← props_lookup "html" ps ≫= as_string;
      Some (ExtractedElement.mk tag text attrs html)
  | _ => None
  end.
