(* ===== verification/GeminiService.v ===== *)
(** * The service of [src/geminiService.ts]

    [processSelector html selector] sends one [generateContent] request
    (prompt, system instruction, JSON response schema) and reshapes the
    JSON the model returns into a [ProcessingResult]: every element is
    copied with [{...el, attributes: ...}], its [attributes] array of
    [{name, value}] objects folded by [reduce] into a record, [count]
    defaults to the number of elements and [selectorUsed] to the selector
    through [||]; any exception (a rejected call, [JSON.parse] on invalid
    text, a [TypeError] while reshaping) yields the fixed error result.
    [fetchUrlSimulated url] returns the model's text or a fixed page.

    The model is an oracle: its answer to a request is a [Reply], an input
    of [processSelector]. [JSON.parse] is the parameter [json_parse] of the
    section (the library function is not code of the repository). *)

From S2P Require Import Prelude JsValue JsObject Json JsonText Types.

Module GeminiService.

(** ** The request *)

Definition dq : string := String (Ascii.ascii_of_nat 34) EmptyString.
Definition nl : string := String (Ascii.ascii_of_nat 10) EmptyString.

Definition MODEL : string := "gemini-3-flash-preview".

(** [SYSTEM_INSTRUCTION], the template literal character for character. *)
Definition SYSTEM_INSTRUCTION : string :=
  nl +:+ "You are an expert in the Python library " +:+ dq +:+ "DrissionPage" +:+ dq
     +:+ " and HTML parsing." +:+ nl
  +:+ "Your task is to act as a DrissionPage selector engine." +:+ nl
  +:+ "The user will provide a block of HTML and a " +:+ dq +:+ "Locator" +:+ dq
     +:+ " string following DrissionPage syntax." +:+ nl
  +:+ nl
  +:+ "DrissionPage Locator Rules:" +:+ nl
  +:+ "1. Property locator: '@name=value' (e.g., '@id=header', '@class=main-btn')." +:+ nl
  +:+ "2. Tag name: 'tag:name' (e.g., 'tag:div', 'tag:p')." +:+ nl
  +:+ "3. Text search: 'text:content' or just 'content'." +:+ nl
  +:+ "4. CSS Selector: 'css:.my-class'." +:+ nl
  +:+ "5. XPath: 'xpath://div'." +:+ nl
  +:+ "6. Property only: '@id' (finds any element with an id)." +:+ nl
  +:+ "7. Combined: 'tag:div@class=container'." +:+ nl
  +:+ nl
  +:+ "You must parse the provided HTML and find ALL elements matching the locator." +:+ nl
  +:+ "Return the results in a strict JSON format matching the schema provided." +:+ nl
  +:+ "For 'attributes', provide an array of objects, each containing a 'name' and a 'value' key."
     +:+ nl
  +:+ "Include the tag name, outer HTML, inner text, and attributes for each found element."
     +:+ nl.

(** The response schema language of the SDK ([Type.OBJECT], [Type.ARRAY],
  [Type.STRING], [Type.NUMBER]) with [properties] and [required]. *)
Inductive schema :=
  | SString
  | SNumber
  | SArray (items : schema)
  | SObject (properties : list (string * schema)) (required : list string).

(** [config.responseSchema] of [processSelector], its innermost object
  (an attribute), the element object, and the response object. *)
Definition attributeSchema : schema :=
  SObject [("name", SString); ("value", SString)] ["name"; "value"].

Definition elementSchema : schema :=
  SObject [("tag", SString); ("text", SString);
           ("attributes", SArray attributeSchema); ("html", SString)]
          ["tag"; "text"; "attributes"; "html"].

Definition responseSchema : schema :=
  SObject [("elements", SArray elementSchema); ("count", SNumber);
           ("selectorUsed", SString)]
          ["elements"; "count"; "selectorUsed"].

(** A value conforms to a schema: strings and numbers have their type, the
  items of an array conform to [items], an object has every [required]
  key and every listed property it has conforms. *)
Fixpoint conforms (s : schema) (v : jsval) : bool :=
  match s, v with
  | SString, JStr _ | SNumber, JNum _ => true
  | SArray it, JArr vs => forallb (conforms it) vs
  | SObject sps req, JObj ps =>
      forallb (fun k => bool_decide (is_Some (props_lookup k ps))) req
      && forallb (fun ks => match props_lookup ks.1 ps with
                            | Some w => conforms ks.2 w
                            | None => true
                            end) sps
  | _, _ => false
  end.

(** The prompt of [processSelector]: the [contents] template literal. *)
Definition selector_contents (html selector : string) : string :=
  "HTML Content:" +:+ nl +:+ html +:+ nl +:+ nl +:+ "Locator:" +:+ nl +:+ selector.

(** The prompt of [fetchUrlSimulated]. *)
Definition fetch_contents (url : string) : string :=
  "Generate a realistic HTML structure representing the webpage at: " +:+ url +:+ ". " +:+ nl
  +:+ "      Make sure it has varied tags (div, a, span, p, h1, buttons), classes, and ids"
  +:+ " so I can test DrissionPage selectors. " +:+ nl
  +:+ "      Include a header, main content area, and a footer.".

(** The argument of [ai.models.generateContent]. *)
Record GenerateContentRequest := mk_request {
  model : string;
  contents : string;
  systemInstruction : string;
  responseMimeType : option string;
  responseSchema_of : option schema
  }.

Definition selector_request (html selector : string) : GenerateContentRequest :=
  mk_request MODEL (selector_contents html selector) SYSTEM_INSTRUCTION
             (Some "application/json") (Some responseSchema).

Definition fetch_request (url : string) : GenerateContentRequest :=
  mk_request MODEL (fetch_contents url) "Return ONLY raw HTML. No markdown, no code blocks."
             None None.

(** ** The reply *)

(** The settled promise of [generateContent]: rejected, or resolved with a
  response whose [text] getter gives a string or [undefined]. *)
Inductive Reply :=
  | Rejected
  | Resolved (text : option string).

(** [response.text || d] for a string default [d]. *)
Definition text_or (t : option string) (d : string) : string :=
  match t with
  | Some s => if String.eqb s "" then d else s
  | None => d
  end.

(** ** Reshaping the parsed response *)

(** The [reduce] callback: [acc[curr.name] = curr.value; return acc]. *)
Definition attr_step (acc : ordinary) (curr : jsval) : jserr + ordinary :=
  do name <- get curr "name";
  do value <- get curr "value";
  do key <- to_property_key name;
  inr (ordinary_set key value acc).

(** [(el.attributes || []).reduce(attr_step, {})]: [reduce] is called on
  an array; on any other truthy value it is not a function. The
  accumulator's prototype is not observed afterwards (only its own
  properties are read, by [Object.entries]). *)
Definition reshape_attributes (a : jsval) : jserr + jsval :=
  match js_or a (JArr []) with
  | JArr vs => do acc <- foldM attr_step empty_object vs; inr (JObj (o_props acc))
  | _ => inl TypeError
  end.

(** The [map] callback: [({...el, attributes: ...})]. *)
Definition reshape_element (el : jsval) : jserr + jsval :=
  let copied := copy_data_properties [] el in
  do a <- get el "attributes";
  do attrs <- reshape_attributes a;
  inr (JObj (props_set "attributes" attrs copied)).

(** From [rawResult] to the returned object. *)
Definition reshape_result (raw : jsval) (selector : string)
    : jserr + ProcessingResult.t :=
  do els <- get raw "elements";
  do elements <- match js_or els (JArr []) with
                 | JArr vs => mapM reshape_element vs
                 | _ => inl TypeError
                 end;
  do c <- get raw "count";
  do su <- get raw "selectorUsed";
  inr (ProcessingResult.mk elements
         (js_or c (JNum (Z.of_nat (length elements))))
         (js_or su (JStr selector))
         None).

(** The value of the [catch] branch. *)
Definition error_result (selector : string) : ProcessingResult.t :=
  ProcessingResult.mk [] (JNum 0) (JStr selector)
    (Some "Failed to process the selector with AI engine.").

Section with_parser.
(** [JSON.parse]: a value, or [None] when it throws a [SyntaxError]. *)
Variable json_parse : string -> option jsval.

(** The [try] block of [processSelector]. *)
Definition processSelector_try (r : Reply) (selector : string)
    : jserr + ProcessingResult.t :=
  match r with
  | Rejected => inl ApiError
  | Resolved t =>
      match json_parse (text_or t "{}") with
      | None => inl SyntaxError
      | Some raw => reshape_result raw selector
      end
  end.

(** [processSelector(html, selector)] once the request
  [selector_request html selector] has settled with [r]: the [catch]
  turns every exception into [error_result]. *)
Definition processSelector (html selector : string) (r : Reply) : ProcessingResult.t :=
  match processSelector_try r selector with
  | inl _ => error_result selector
  | inr res => res
  end.
End with_parser.

(** [fetchUrlSimulated(url)] once [fetch_request url] has settled. *)
Definition fetchUrlSimulated (url : string) (r : Reply) : string :=
  match r with
  | Rejected =>
      "<html><body>Error fetching page via AI simulation. Please paste HTML manually.</body></html>"
  | Resolved t => text_or t "<html><body>No content generated.</body></html>"
  end.

(** ** Reading the reply the schema describes *)

(** The name and value of a conforming attribute object. *)
Definition attr_of (a : jsval) : string * string :=
  match a with
  | JObj ps =>
      match props_lookup "name" ps, props_lookup "value" ps with
      | Some (JStr n), Some (JStr v) => (n, v)
      | _, _ => ("", "")
      end
  | _ => ("", "")
  end.

(** [acc[name] = value] with a string [value] on an accumulator that still
  inherits from [Object.prototype]: the key ["__proto__"] reaches the
  setter, which ignores a string. *)
Definition assign_string (ps : props) (nv : string * string) : props :=
  if String.eqb nv.1 "__proto__" then ps else props_set nv.1 (JStr nv.2) ps.

(** The record [reduce] builds from a list of name/value pairs. *)
Definition attrs_json (l : list (string * string)) : props := fold_left assign_string l [].

(** The JSON text the schema asks the model for, as the value
  [JSON.parse] returns for it. *)
Definition encode_attr (nv : string * string) : jsval :=
  JObj [("name", JStr nv.1); ("value", JStr nv.2)].

Definition encode_element (e : ExtractedElement.t) : jsval :=
  JObj [("tag", JStr (ExtractedElement.tag e)); ("text", JStr (ExtractedElement.text e));
        ("attributes", JArr (map encode_attr (ExtractedElement.attributes e)));
        ("html", JStr (ExtractedElement.html e))].

Definition encode_response (els : list ExtractedElement.t) (count : Z) (su : string) : jsval :=
  JObj [("elements", JArr (map encode_element els)); ("count", JNum count);
        ("selectorUsed", JStr su)].

(** Attribute names that are distinct and are not ["__proto__"]. *)
Definition plain_attributes (e : ExtractedElement.t) : Prop :=
  NoDup (map fst (ExtractedElement.attributes e))
  /\ "__proto__" ∉ map fst (ExtractedElement.attributes e).

#[export] Instance plain_attributes_dec e : Decision (plain_attributes e).
Proof. unfold plain_attributes. apply _. Defined.

(** ** Lemmas on schemas and on the reduce *)

Lemma conforms_field sps req v k s :
  conforms (SObject sps req) v = true -> (k, s) ∈ sps -> k ∈ req ->
  exists ps w, v = JObj ps /\ props_lookup k ps = Some w /\ conforms s w = true.
Proof.
  destruct v as [| | | | | |ps]; try discriminate. simpl.
  rewrite andb_true_iff, !forallb_forall. intros [Hreq Hsps] Hks Hk.
  apply list_elem_of_In in Hks, Hk.
  specialize (Hreq k Hk). apply bool_decide_eq_true in Hreq as [w Hw].
  exists ps, w. specialize (Hsps _ Hks). simpl in Hsps. rewrite Hw in Hsps. auto.
Qed.

(** Read field [k] of schema [s] off a conformance hypothesis [H]: its
  value [w], the lookup [Hk] and the field's conformance. *)
Ltac field H k s w Hk Hc :=
  let H' := fresh in
  pose proof H as H'; unfold attributeSchema, elementSchema, responseSchema in H';
  destruct (conforms_field _ _ _ k s H') as (?ps & w & ?E & Hk & Hc);
  [set_solver|set_solver|]; clear H'; simplify_eq.

Lemma assign_string_no_proto ps nv :
  "__proto__" ∉ props_keys ps -> "__proto__" ∉ props_keys (assign_string ps nv).
Proof.
  unfold assign_string. destruct (String.eqb_spec nv.1 "__proto__"); [done|].
  rewrite props_keys_set. case_decide; set_solver.
Qed.

Lemma attr_step_conforming a ps :
  conforms attributeSchema a = true -> "__proto__" ∉ props_keys ps ->
  attr_step (mk_ordinary ProtoObject ps) a
  = inr (mk_ordinary ProtoObject (assign_string ps (attr_of a))).
Proof.
  intros Ha Hp. field Ha "name" SString n Hn Hcn. field Ha "value" SString v Hv Hcv.
  destruct n as [| | | |n| |]; try discriminate. destruct v; try discriminate.
  unfold attr_step, attr_of. simpl. rewrite Hn, Hv. simpl.
  unfold assign_string. simpl. destruct (String.eqb_spec n "__proto__") as [->|Hne].
  - unfold ordinary_set. simpl. apply props_lookup_None in Hp. by rewrite Hp.
  - by rewrite ordinary_set_other.
Qed.

Lemma attr_fold_conforming vs ps :
  Forall (fun a => conforms attributeSchema a = true) vs -> "__proto__" ∉ props_keys ps ->
  foldM attr_step (mk_ordinary ProtoObject ps) vs
  = inr (mk_ordinary ProtoObject (fold_left assign_string (map attr_of vs) ps)).
Proof.
  intros Hvs. revert ps. induction Hvs as [|a vs Ha _ IH]; intros ps Hp; simpl; [done|].
  rewrite attr_step_conforming by done. apply IH. by apply assign_string_no_proto.
Qed.

Lemma attrs_json_strings l : Forall (fun kv => exists s, kv.2 = JStr s) (attrs_json l).
Proof.
  unfold attrs_json.
  cut (forall ps, Forall (fun kv => exists s, kv.2 = JStr s) ps ->
                  Forall (fun kv => exists s, kv.2 = JStr s) (fold_left assign_string l ps));
    [intros H; apply H; constructor|].
  induction l as [|[n v] l IH]; intros ps Hps; simpl; [done|].
  apply IH. unfold assign_string. simpl. destruct (String.eqb n "__proto__"); [done|].
  apply props_set_Forall; eauto.
Qed.

Lemma string_props_strings ps :
  Forall (fun kv => exists s, kv.2 = JStr s) ps -> is_Some (string_props ps).
Proof.
  induction 1 as [|[k v] ps [s Hs] _ [l IH]]; simpl in *; [by eexists|].
  subst. rewrite IH. by eexists.
Qed.

Lemma attrs_json_plain l :
  NoDup (map fst l) -> "__proto__" ∉ map fst l ->
  attrs_json l = map (fun kv => (kv.1, JStr kv.2)) l.
Proof.
  intros Hnd Hp. unfold attrs_json.
  assert (forall ps, fold_left assign_string l ps
          = fold_left (fun t kv => props_set kv.1 kv.2 t)
                      (map (fun kv => (kv.1, JStr kv.2)) l) ps) as ->.
  { clear Hnd. induction l as [|[n v] l IH]; intros ps; simpl; [done|].
    unfold assign_string at 2. simpl.
    destruct (String.eqb_spec n "__proto__"); [set_solver|]. apply IH. set_solver. }
  rewrite fold_props_set_fresh; [done| |set_solver].
  unfold props_keys. by rewrite map_map.
Qed.

Lemma string_props_plain l : string_props (map (fun kv => (kv.1, JStr kv.2)) l) = Some l.
Proof. induction l as [|[k v] l IH]; simpl; [done|]. by rewrite IH. Qed.

Lemma reshape_attributes_conforming vs :
  forallb (conforms attributeSchema) vs = true ->
  reshape_attributes (JArr vs) = inr (JObj (attrs_json (map attr_of vs))).
Proof.
  intros Hvs. unfold reshape_attributes, js_or. cbn [truthy]. unfold empty_object.
  rewrite attr_fold_conforming; [done| |set_solver].
  apply Forall_forall. intros a Ha. rewrite forallb_forall in Hvs.
  apply Hvs, list_elem_of_In, Ha.
Qed.

Lemma reshape_attributes_encode l :
  reshape_attributes (JArr (map encode_attr l)) = inr (JObj (attrs_json l)).
Proof.
  rewrite reshape_attributes_conforming.
  - by rewrite map_map, (map_ext _ id), map_id by (intros []; done).
  - apply forallb_forall. intros a Ha. apply in_map_iff in Ha as ([n v] & <- & _). done.
Qed.

(** The keys of the record: the names in order of first occurrence,
  without ["__proto__"]. *)
Lemma assign_string_keys ps nv :
  props_keys (assign_string ps nv)
  = if String.eqb nv.1 "__proto__" then props_keys ps else snoc_new (props_keys ps) nv.1.
Proof. unfold assign_string, snoc_new. case_match; [done|]. apply props_keys_set. Qed.

Lemma attrs_fold_keys l ps :
  props_keys (fold_left assign_string l ps)
  = fold_left snoc_new (filter (fun k => k <> "__proto__") (map fst l)) (props_keys ps).
Proof.
  revert ps; induction l as [|[n v] l IH]; intros ps; simpl; [done|].
  rewrite IH, assign_string_keys, filter_cons. simpl.
  destruct (String.eqb_spec n "__proto__") as [->|Hn].
  - by rewrite decide_False by naive_solver.
  - by rewrite decide_True by done.
Qed.

Lemma attrs_json_keys l :
  props_keys (attrs_json l) = first_occurrences (filter (fun k => k <> "__proto__") (map fst l)).
Proof. unfold attrs_json. rewrite attrs_fold_keys. apply fold_snoc_new_nil. Qed.

(** The value of a name: the one it is given last. *)
Lemma attrs_fold_lookup l ps k :
  k <> "__proto__" ->
  props_lookup k (fold_left assign_string l ps)
  = match last_value k l with Some v => Some (JStr v) | None => props_lookup k ps end.
Proof.
  intros Hk. revert ps; induction l as [|[n v] l IH]; intros ps; simpl; [done|].
  rewrite IH. destruct (last_value k l); [done|].
  unfold assign_string. simpl. destruct (String.eqb_spec n "__proto__") as [->|Hn].
  - by rewrite decide_False by congruence.
  - destruct (decide (n = k)) as [->|Hnk]; [apply props_lookup_set_eq|].
    by apply props_lookup_set_ne.
Qed.

Lemma attrs_json_lookup l k :
  k <> "__proto__" -> props_lookup k (attrs_json l) = JStr <$> last_value k l.
Proof. intros Hk. unfold attrs_json. rewrite attrs_fold_lookup by done. by destruct (last_value k l). Qed.

(** The element [{...el, attributes}] read back through the declared type. *)
Lemma typed_reshaped ps A t x h :
  props_lookup "tag" ps = Some (JStr t) -> props_lookup "text" ps = Some (JStr x) ->
  props_lookup "html" ps = Some (JStr h) ->
  typed_element (JObj (props_set "attributes" (JObj A) (copy_data_properties [] (JObj ps))))
  = (fun attrs => ExtractedElement.mk t x attrs h) <$> string_props A.
Proof.
  intros Ht Hx Hh. unfold typed_element.
  rewrite (props_lookup_set_ne "attributes" "tag"), (props_lookup_set_ne "attributes" "text"),
    (props_lookup_set_ne "attributes" "html") by done.
  rewrite !props_lookup_copy_obj, Ht, Hx, Hh.
  rewrite props_lookup_set_eq. simpl. by destruct (string_props A).
Qed.

Lemma reshape_element_fields ps avs :
  props_lookup "attributes" ps = Some (JArr avs) ->
  forallb (conforms attributeSchema) avs = true ->
  reshape_element (JObj ps)
  = inr (JObj (props_set "attributes" (JObj (attrs_json (map attr_of avs)))
                         (copy_data_properties [] (JObj ps)))).
Proof.
  intros Ha Havs. unfold reshape_element. simpl. rewrite Ha. simpl.
  by rewrite reshape_attributes_conforming.
Qed.

Lemma reshape_element_conforming el :
  conforms elementSchema el = true ->
  exists e, reshape_element el = inr e /\ is_Some (typed_element e).
Proof.
  intros Hel. field Hel "tag" SString t Ht Hct. field Hel "text" SString x Hx Hcx.
  field Hel "attributes" (SArray attributeSchema) a Ha Hca.
  field Hel "html" SString h Hh Hch.
  destruct t; try discriminate. destruct x; try discriminate. destruct h; try discriminate.
  destruct a as [| | | | |avs|]; try discriminate.
  eexists. rewrite (reshape_element_fields _ avs) by done. split; [reflexivity|].
  rewrite (typed_reshaped _ _ s s0 s1) by done.
  destruct (string_props_strings _ (attrs_json_strings (map attr_of avs))) as [l ->].
  by eexists.
Qed.

(** The element of any attribute list is reshaped into an element of
  the declared type whose attributes are the record of the [reduce]. *)
Lemma reshape_encode_element_record e :
  exists ev l, reshape_element (encode_element e) = inr ev
    /\ typed_element ev = Some (ExtractedElement.mk (ExtractedElement.tag e)
                                 (ExtractedElement.text e) l (ExtractedElement.html e))
    /\ string_props (attrs_json (ExtractedElement.attributes e)) = Some l.
Proof.
  destruct e as [t x attrs h]. unfold encode_element. simpl.
  destruct (string_props_strings _ (attrs_json_strings attrs)) as [l Hl].
  rewrite (reshape_element_fields _ (map encode_attr attrs)); [|done|].
  - eexists _, l. split; [reflexivity|]. rewrite (typed_reshaped _ _ t x h) by done. simpl.
    rewrite map_map, (map_ext _ id), map_id by (intros []; done). by rewrite Hl.
  - apply forallb_forall. intros a Ha. apply in_map_iff in Ha as ([n v] & <- & _). done.
Qed.

Lemma reshape_encode_element e :
  plain_attributes e ->
  exists ev, reshape_element (encode_element e) = inr ev /\ typed_element ev = Some e.
Proof.
  intros [Hnd Hp]. destruct (reshape_encode_element_record e) as (ev & l & He & Ht & Hl).
  rewrite attrs_json_plain, string_props_plain in Hl by done. injection Hl as <-.
  exists ev. split; [done|]. rewrite Ht. by destruct e.
Qed.

(** The JSON text of the schema's reply is read back as the reply
    itself: its objects have distinct keys, none an array index, and no
    value is [undefined]. *)
Lemma json_value_encode_attr nv : JsonText.json_value (encode_attr nv) = encode_attr nv.
Proof. reflexivity. Qed.

Lemma json_value_encode_element e : JsonText.json_value (encode_element e) = encode_element e.
Proof.
  assert (map JsonText.json_value (map encode_attr (ExtractedElement.attributes e))
          = map encode_attr (ExtractedElement.attributes e)) as Ha.
  { induction (ExtractedElement.attributes e) as [|nv l IH]; [done|]. simpl. by rewrite IH. }
  unfold encode_element. cbn. rewrite Ha. reflexivity.
Qed.

Lemma json_value_encode_response els c su :
  JsonText.json_value (encode_response els c su) = encode_response els c su.
Proof.
  assert (map JsonText.json_value (map encode_element els) = map encode_element els) as Ha.
  { induction els as [|e l IH]; [done|]. cbn [map]. by rewrite IH, json_value_encode_element. }
  unfold encode_response. cbn. rewrite Ha. reflexivity.
Qed.

(** The keys of a literal object are distinct. *)
Ltac keys_distinct :=
  rewrite bool_decide_eq_true_2
    by (unfold props_wf, props_keys; simpl; apply (bool_decide_unpack _); vm_compute; exact I);
  rewrite andb_true_l, ?andb_true_r, forallb_forall.

Lemma deep_wf_encode_response els c su :
  (Z.abs c <= Json.max_safe)%Z -> JsonText.deep_wf (encode_response els c su) = true.
Proof.
  intros Hc. cbn. rewrite (bool_decide_eq_true_2 _ Hc). keys_distinct. intros v Hv. apply in_map_iff in Hv as (e & <- & _).
  cbn. keys_distinct. intros a Ha. apply in_map_iff in Ha as (nv & <- & _). reflexivity.
Qed.

(** The JSON text of a reply is not empty: [response.text || '{}'] keeps
    it. *)
Lemma text_or_stringified els c su txt :
  JsonText.stringify (encode_response els c su) = Some txt -> text_or (Some txt) "{}" = txt.
Proof.
  unfold text_or. destruct (String.eqb_spec txt "") as [->|]; [|done].
  unfold JsonText.stringify, encode_response. rewrite JsonText.serialize_object. discriminate.
Qed.

(** ** What [processSelector] does with the reply *)

(** The [elements] of a conforming reply are reshaped into elements of
  the declared type. *)
Lemma reshape_elements_conforming vs :
  conforms (SArray elementSchema) (JArr vs) = true ->
  exists ys, mapM reshape_element vs = inr ys /\ Forall (fun e => is_Some (typed_element e)) ys.
Proof.
  intros Hce. destruct (mapM_Forall reshape_element (fun e => is_Some (typed_element e)) vs)
    as (ys & Hys & Hall & _); [|by exists ys].
  intros el Hel. apply reshape_element_conforming.
  simpl in Hce. rewrite forallb_forall in Hce. apply Hce, list_elem_of_In, Hel.
Qed.

(** C1 (type): a parsed reply that conforms to [responseSchema] is
  reshaped without an exception; every element has the declared type
  [ExtractedElement], [count] is a number, [selectorUsed] a string and
  no error is set. *)
Theorem reshape_result_conforming raw selector :
  conforms responseSchema raw = true ->
  exists r, reshape_result raw selector = inr r
    /\ Forall (fun e => is_Some (typed_element e)) (ProcessingResult.elements r)
    /\ (exists n, ProcessingResult.count r = JNum n)
    /\ (exists s, ProcessingResult.selectorUsed r = JStr s)
    /\ ProcessingResult.error r = None.
Proof.
  intros H. field H "elements" (SArray elementSchema) els He Hce.
  field H "count" SNumber c Hc Hcc. field H "selectorUsed" SString su Hs Hcs.
  destruct els as [| | | | |vs|]; try discriminate.
  destruct c; try discriminate. destruct su; try discriminate.
  destruct (reshape_elements_conforming vs Hce) as (ys & Hys & Hall).
  unfold reshape_result. simpl. rewrite He. simpl. rewrite Hys, Hc, Hs. simpl.
  eexists. split; [reflexivity|]. simpl. split; [done|].
  split; [unfold js_or; destruct (truthy (JNum n)); by eexists|].
  split; [unfold js_or; destruct (truthy (JStr s)); by eexists|done].
Qed.

(** The reply the schema describes, once parsed, is reshaped into its
  elements. *)
Lemma reshape_encode_response els count su selector :
  Forall plain_attributes els ->
  exists r, reshape_result (encode_response els count su) selector = inr r
    /\ map typed_element (ProcessingResult.elements r) = map Some els
    /\ ProcessingResult.count r
       = JNum (if (count =? 0)%Z then Z.of_nat (length els) else count)
    /\ ProcessingResult.selectorUsed r = JStr (if String.eqb su "" then selector else su)
    /\ ProcessingResult.error r = None.
Proof.
  intros Hplain. unfold reshape_result, encode_response. simpl. rewrite mapM_map.
  destruct (mapM_Forall2 (fun e => reshape_element (encode_element e))
              (fun e ev => typed_element ev = Some e) els) as (ys & -> & H2).
  { intros e He. apply reshape_encode_element. rewrite Forall_forall in Hplain. auto. }
  simpl. eexists. split; [reflexivity|]. simpl.
  split; [by apply Forall2_map_eq|].
  rewrite <-(Forall2_length _ _ _ H2).
  unfold js_or. simpl. destruct (count =? 0)%Z, (String.eqb su ""); done.
Qed.

(** A reply that is the JSON text of a value is reshaped as that value. *)
Lemma processSelector_stringified els count su html selector txt :
  (Z.abs count <= Json.max_safe)%Z ->
  JsonText.stringify (encode_response els count su) = Some txt ->
  processSelector Json.parse html selector (Resolved (Some txt))
  = match reshape_result (encode_response els count su) selector with
    | inl _ => error_result selector
    | inr r => r
    end.
Proof.
  intros Hc Hs. pose proof (text_or_stringified _ _ _ _ Hs) as Ht.
  pose proof (JsonText.parse_stringify _ _ Hs (deep_wf_encode_response els count su Hc)) as Hp.
  rewrite json_value_encode_response in Hp.
  unfold processSelector, processSelector_try. by rewrite Ht, Hp.
Qed.

(** C2 (roundtrip): when the model answers with the JSON text of
  elements as the schema describes them (the text [JSON.stringify]
  writes), for elements whose attribute names are distinct and not
  ["__proto__"], [processSelector] returns exactly those elements, with
  no error; [count] (an integer a double holds exactly) is the model's
  count unless it is [0], then the number of elements; [selectorUsed]
  is the model's unless it is empty, then the locator. *)
Theorem processSelector_json_roundtrip els count su html selector txt :
  Forall plain_attributes els -> (Z.abs count <= Json.max_safe)%Z ->
  JsonText.stringify (encode_response els count su) = Some txt ->
  let r := processSelector Json.parse html selector (Resolved (Some txt)) in
  map typed_element (ProcessingResult.elements r) = map Some els
  /\ ProcessingResult.count r = JNum (if (count =? 0)%Z then Z.of_nat (length els) else count)
  /\ ProcessingResult.selectorUsed r = JStr (if String.eqb su "" then selector else su)
  /\ ProcessingResult.error r = None.
Proof.
  intros Hplain Hc Hs. rewrite (processSelector_stringified _ _ _ _ _ _ Hc Hs).
  destruct (reshape_encode_response els count su selector Hplain) as (r & -> & Hr'). exact Hr'.
Qed.

(** The shape of every result [reshape_result] returns. *)
Lemma reshape_result_inv raw selector r :
  reshape_result raw selector = inr r ->
  exists c su, get raw "count" = inr c /\ get raw "selectorUsed" = inr su
    /\ ProcessingResult.count r
       = js_or c (JNum (Z.of_nat (length (ProcessingResult.elements r))))
    /\ ProcessingResult.selectorUsed r = js_or su (JStr selector)
    /\ ProcessingResult.error r = None.
Proof.
  unfold reshape_result.
  destruct (get raw "elements"); [done|].
  destruct (match js_or j (JArr []) with JArr vs => mapM reshape_element vs | _ => inl TypeError end);
    [done|].
  destruct (get raw "count") as [|c]; [done|]. destruct (get raw "selectorUsed") as [|su]; [done|].
  intros [= <-]. simpl. eauto 10.
Qed.

(** C3 (functional): the returned [count] equals the number of returned
  elements exactly when the model's [count] is falsy ([0], missing) or
  already equals it; any other number the model sends is passed on, so
  [count = elements.length] is not an invariant of the result. *)
Theorem reshape_count_length raw selector r :
  reshape_result raw selector = inr r ->
  (ProcessingResult.count r = JNum (Z.of_nat (length (ProcessingResult.elements r)))
   <-> exists c, get raw "count" = inr c
         /\ (truthy c = false \/ c = JNum (Z.of_nat (length (ProcessingResult.elements r))))).
Proof.
  intros H. destruct (reshape_result_inv _ _ _ H) as (c & su & Hc & _ & -> & _).
  rewrite js_or_eq_right, Hc. split; [eauto|]. intros (c' & [= <-] & Hc'). done.
Qed.

(** C4 (functional): the returned [selectorUsed] is the selector exactly
  when the model's [selectorUsed] is falsy or already the selector; the
  result does not echo the locator when the model names another one. *)
Theorem reshape_selector_echo raw selector r :
  reshape_result raw selector = inr r ->
  (ProcessingResult.selectorUsed r = JStr selector
   <-> exists su, get raw "selectorUsed" = inr su
         /\ (truthy su = false \/ su = JStr selector)).
Proof.
  intros H. destruct (reshape_result_inv _ _ _ H) as (c & su & _ & Hsu & _ & -> & _).
  rewrite js_or_eq_right, Hsu. split; [eauto|]. intros (su' & [= <-] & Hsu'). done.
Qed.

(** C5 (functional): the [reduce] of the attributes makes a record of
  the attribute list the model sends: each name once, where it first
  occurs, with the value it has last; the name ["__proto__"] is
  dropped, because the assignment calls the [__proto__] setter of
  [Object.prototype], which ignores a string value. *)
Theorem reshape_attributes_reduce l :
  exists ps, reshape_attributes (JArr (map encode_attr l)) = inr (JObj ps)
    /\ props_keys ps = first_occurrences (filter (fun k => k <> "__proto__") (map fst l))
    /\ forall k, k <> "__proto__" -> props_lookup k ps = JStr <$> last_value k l.
Proof.
  exists (attrs_json l).
  split_and!; [apply reshape_attributes_encode|apply attrs_json_keys|apply attrs_json_lookup].
Qed.

(** C13 (error): every error result is the one of the [catch]: no
  elements, [count] [0], the locator echoed; the contract of the
  service boundary holds on every failure path. *)
Theorem processSelector_error_contract json_parse html selector r :
  ProcessingResult.error (processSelector json_parse html selector r) <> None ->
  ProcessingResult.elements (processSelector json_parse html selector r) = []
  /\ ProcessingResult.count (processSelector json_parse html selector r) = JNum 0
  /\ ProcessingResult.selectorUsed (processSelector json_parse html selector r) = JStr selector.
Proof.
  unfold processSelector. destruct (processSelector_try json_parse r selector) as [e|res] eqn:E;
    [done|]. intros Herr. exfalso. apply Herr.
  destruct r as [|t]; [done|]. simpl in E.
  destruct (json_parse (text_or t "{}")) as [raw|]; [|done].
  by destruct (reshape_result_inv _ _ _ E) as (? & ? & _ & _ & _ & _ & ->).
Qed.

(** C14 (functional): a reply without text ([undefined] or [""]) is read
  as ["{}"]: an empty result without error, [count] [0] and the locator
  echoed, not the error result. *)
Theorem processSelector_no_text json_parse html selector t :
  json_parse "{}" = Some (JObj []) -> t = None \/ t = Some "" ->
  processSelector json_parse html selector (Resolved t)
  = ProcessingResult.mk [] (JNum 0) (JStr selector) None.
Proof.
  intros Hp Ht. unfold processSelector, processSelector_try.
  assert (text_or t "{}" = "{}") as -> by (destruct Ht as [-> | ->]; done).
  by rewrite Hp.
Qed.

(** C15 (error): reading a property of a [null] reply, calling [map] on a
  [elements] string, or spreading a [null] element throws a [TypeError],
  and the result is the error result. *)
Theorem processSelector_type_errors json_parse html selector t v :
  json_parse (text_or t "{}") = Some v ->
  (v = JNull
   \/ (exists ps s, v = JObj ps /\ props_lookup "elements" ps = Some (JStr s) /\ s <> "")
   \/ (exists ps vs, v = JObj ps /\ props_lookup "elements" ps = Some (JArr vs) /\ JNull ∈ vs)) ->
  processSelector json_parse html selector (Resolved t) = error_result selector.
Proof.
  intros Hp Hv. unfold processSelector, processSelector_try. rewrite Hp.
  destruct Hv as [->|[(ps & s & -> & Hel & Hs)|(ps & vs & -> & Hel & Hnull)]]; [done| |].
  - unfold reshape_result. simpl. rewrite Hel. simpl.
    unfold js_or. simpl. destruct (String.eqb_spec s ""); done.
  - unfold reshape_result. simpl. rewrite Hel. simpl.
    destruct (mapM_fails reshape_element vs JNull TypeError Hnull) as [e ->]; done.
Qed.

(** C22 (error): a reply wrapped in a Markdown code fence, the way
  language models often format JSON, is a [SyntaxError] for
  [JSON.parse]: [processSelector] returns the error result whatever the
  fence holds, the elements of a correct answer included. *)
Theorem processSelector_fenced_reply html selector t :
  processSelector Json.parse html selector (Resolved (Some ("```json" +:+ nl +:+ t))) = error_result selector.
Proof.
  unfold processSelector, processSelector_try, text_or. rewrite !string_app_cons.
  cbn -[Json.parse]. by rewrite JsonText.parse_backquote.
Qed.

(** ** The prompt *)

(** The separator between the HTML and the locator in the prompt. *)
Lemma selector_contents_shift h s t :
  selector_contents (h +:+ nl +:+ nl +:+ "Locator:" +:+ nl +:+ s) t =
  selector_contents h (s +:+ nl +:+ nl +:+ "Locator:" +:+ nl +:+ t).
Proof. unfold selector_contents. by autorewrite with pg_rw. Qed.

(** C20 (functional): the request does not determine the HTML and the
    locator it was built from: the template interpolates both without
    escaping, so an HTML text that ends with the separator line
    "Locator:" and the locator that follows give the same request as
    the HTML before it with a longer locator. No reading of the request,
    by the model or anyone, recovers the pair. *)
Theorem selector_request_ambiguous :
  ~ exists decode : GenerateContentRequest -> string * string,
      forall html selector, decode (selector_request html selector) = (html, selector).
Proof.
  intros [decode Hdec].
  pose proof (Hdec ("" +:+ nl +:+ nl +:+ "Locator:" +:+ nl +:+ "") "") as H1.
  pose proof (Hdec "" ("" +:+ nl +:+ nl +:+ "Locator:" +:+ nl +:+ "")) as H2.
  unfold selector_request in H1, H2. rewrite selector_contents_shift, H2 in H1.
  discriminate.
Qed.

(** ** Witnesses *)

(** The scenario of the specification: [<div id="a">X</div>] found by
  [@id=a]. *)
Definition scenario_element : ExtractedElement.t :=
  ExtractedElement.mk "div" "X" [("id", "a")] ("<div id=" +:+ dq +:+ "a" +:+ dq +:+ ">X</div>").

Definition scenario_reply : jsval := encode_response [scenario_element] 1 "@id=a".

(** The HTML of the specification's scenario and the text of the reply. *)
Definition scenario_html : string :=
  "<div id=" +:+ dq +:+ "a" +:+ dq +:+ ">X</div><div id=" +:+ dq +:+ "b" +:+ dq +:+ ">Y</div>".

Definition scenario_text : string := default "" (JsonText.stringify scenario_reply).

Lemma processSelector_json_roundtrip_witness :
  let r := processSelector Json.parse scenario_html "@id=a" (Resolved (Some scenario_text)) in
  map typed_element (ProcessingResult.elements r) = [Some scenario_element]
  /\ ProcessingResult.count r = JNum 1
  /\ ProcessingResult.selectorUsed r = JStr "@id=a"
  /\ ProcessingResult.error r = None.
Proof.
  apply (processSelector_json_roundtrip [scenario_element] 1 "@id=a" scenario_html "@id=a").
  - apply (bool_decide_unpack (Forall plain_attributes [scenario_element])). vm_compute. exact I.
  - unfold Json.max_safe. lia.
  - vm_compute. reflexivity.
Defined.

Lemma reshape_result_conforming_witness :
  exists r, reshape_result scenario_reply "@id=a" = inr r
    /\ Forall (fun e => is_Some (typed_element e)) (ProcessingResult.elements r)
    /\ (exists n, ProcessingResult.count r = JNum n)
    /\ (exists s, ProcessingResult.selectorUsed r = JStr s)
    /\ ProcessingResult.error r = None.
Proof. apply reshape_result_conforming. vm_compute. reflexivity. Defined.


(** A reply that conforms to the schema but counts five elements and
  lists none. *)
Definition miscounted_reply : jsval := encode_response [] 5 "@id=a".

Lemma reshape_count_length_witness :
  reshape_result miscounted_reply "@id=a"
    = inr (ProcessingResult.mk [] (JNum 5) (JStr "@id=a") None)
  /\ (JNum 5 = JNum 0 <-> exists c, get miscounted_reply "count" = inr c
                                    /\ (truthy c = false \/ c = JNum 0)).
Proof.
  split; [reflexivity|].
  apply (reshape_count_length miscounted_reply "@id=a"
           (ProcessingResult.mk [] (JNum 5) (JStr "@id=a") None)).
  reflexivity.
Defined.

(** A reply that names another locator than the one sent. *)
Definition renamed_reply : jsval := encode_response [] 0 "css:div".

Lemma reshape_selector_echo_witness :
  reshape_result renamed_reply "@id=a"
    = inr (ProcessingResult.mk [] (JNum 0) (JStr "css:div") None)
  /\ (JStr "css:div" = JStr "@id=a" <-> exists su, get renamed_reply "selectorUsed" = inr su
                                       /\ (truthy su = false \/ su = JStr "@id=a")).
Proof.
  split; [reflexivity|].
  apply (reshape_selector_echo renamed_reply "@id=a"
           (ProcessingResult.mk [] (JNum 0) (JStr "css:div") None)).
  reflexivity.
Defined.

Lemma processSelector_no_text_witness :
  processSelector Json.parse "<p>x</p>" "@id=a" (Resolved None)
  = ProcessingResult.mk [] (JNum 0) (JStr "@id=a") None.
Proof. apply processSelector_no_text; [vm_compute; reflexivity|left; reflexivity]. Defined.

Lemma processSelector_type_errors_witness :
  processSelector Json.parse "<p>x</p>" "@id=a" (Resolved (Some "null")) = error_result "@id=a".
Proof.
  apply (processSelector_type_errors Json.parse "<p>x</p>" "@id=a" (Some "null") JNull);
    [vm_compute; reflexivity|left; reflexivity].
Defined.

Lemma processSelector_error_contract_witness :
  ProcessingResult.error (processSelector Json.parse "<p>x</p>" "@id=a" Rejected) <> None /\
  ProcessingResult.elements (processSelector Json.parse "<p>x</p>" "@id=a" Rejected) = []
  /\ ProcessingResult.count (processSelector Json.parse "<p>x</p>" "@id=a" Rejected) = JNum 0
  /\ ProcessingResult.selectorUsed (processSelector Json.parse "<p>x</p>" "@id=a" Rejected)
     = JStr "@id=a".
Proof.
  split; [vm_compute; discriminate|].
  apply processSelector_error_contract. vm_compute. discriminate.
Defined.

End GeminiService.
