(* ===== verification/App.v ===== *)
(** * The [App] component of [src/App.tsx] as a state machine

    The component keeps one [AppState] ([useState]) and two async
    handlers. [handleFetch] and [handleRunSelector] check their guard, set
    [isLoading], and await a service call; when the promise settles they
    set the new HTML or result and clear [isLoading]. Several calls can be
    in flight: the buttons are disabled while [isLoading], the Enter key of
    the locator input is not. A [World] is the component state with the
    list of awaited calls; an [Event] is a user action or the settling of
    one awaited call, in any order; [step] is one event, [reachable] the
    worlds from the mount (the [useEffect] that runs the locator once).

    The handlers read [state] from the render that created them; React
    re-renders after each discrete event, so they read the current state.
    Their updates are functional ([setState(prev => ...)]), so a settling
    call updates the state as it is then, not as it was when it started.
    The services never reject (each has its own [try]/[catch]), so the
    [catch] branches of the handlers are never taken. *)

From S2P Require Import Prelude JsValue JsObject Json Types GeminiService.

Module App.
Import GeminiService.

(** ** The initial state *)

Definition q (s : string) : string := dq +:+ s +:+ dq.

(** The copyright sign, in UTF-8. *)
Definition copyright : string :=
  String (Ascii.ascii_of_nat 194) (String (Ascii.ascii_of_nat 169) EmptyString).

(** The sample page of the initial state, line by line. *)
Definition initial_html : string :=
  "<!DOCTYPE html>" +:+ nl
  +:+ "<html>" +:+ nl
  +:+ "<head><title>Test Page</title></head>" +:+ nl
  +:+ "<body>" +:+ nl
  +:+ "  <div id=" +:+ q "container" +:+ " class=" +:+ q "main-wrapper" +:+ ">" +:+ nl
  +:+ "    <h1 class=" +:+ q "title" +:+ ">Welcome to Drission Playground</h1>" +:+ nl
  +:+ "    <p>This is a sample page to test your selectors.</p>" +:+ nl
  +:+ "    <ul class=" +:+ q "items" +:+ ">" +:+ nl
  +:+ "      <li id=" +:+ q "item-1" +:+ ">First Item</li>" +:+ nl
  +:+ "      <li id=" +:+ q "item-2" +:+ " class=" +:+ q "active"
      +:+ ">Second Item (Active)</li>" +:+ nl
  +:+ "      <li id=" +:+ q "item-3" +:+ ">Third Item</li>" +:+ nl
  +:+ "    </ul>" +:+ nl
  +:+ "    <button id=" +:+ q "login-btn" +:+ " class=" +:+ q "btn btn-primary"
      +:+ ">Login Now</button>" +:+ nl
  +:+ "    <a href=" +:+ q "/help" +:+ " class=" +:+ q "link" +:+ ">Get Help</a>" +:+ nl
  +:+ "  </div>" +:+ nl
  +:+ "  <footer>" +:+ copyright +:+ " 2024 DrissionPage</footer>" +:+ nl
  +:+ "</body>" +:+ nl
  +:+ "</html>".

Definition initial_state : AppState.t :=
  AppState.mk "https://example.com" initial_html "@id=container" None false TabSource.

(** ** State updates ([setState(prev => ({...prev, f: v}))]) *)

Definition set_url (s : string) (st : AppState.t) : AppState.t :=
  AppState.mk s (AppState.html st) (AppState.selector st) (AppState.result st)
              (AppState.isLoading st) (AppState.activeTab st).

Definition set_html (s : string) (st : AppState.t) : AppState.t :=
  AppState.mk (AppState.url st) s (AppState.selector st) (AppState.result st)
              (AppState.isLoading st) (AppState.activeTab st).

Definition set_selector (s : string) (st : AppState.t) : AppState.t :=
  AppState.mk (AppState.url st) (AppState.html st) s (AppState.result st)
              (AppState.isLoading st) (AppState.activeTab st).

Definition set_result (r : ProcessingResult.t) (st : AppState.t) : AppState.t :=
  AppState.mk (AppState.url st) (AppState.html st) (AppState.selector st) (Some r)
              (AppState.isLoading st) (AppState.activeTab st).

Definition set_isLoading (b : bool) (st : AppState.t) : AppState.t :=
  AppState.mk (AppState.url st) (AppState.html st) (AppState.selector st)
              (AppState.result st) b (AppState.activeTab st).

Definition set_activeTab (t : Tab) (st : AppState.t) : AppState.t :=
  AppState.mk (AppState.url st) (AppState.html st) (AppState.selector st)
              (AppState.result st) (AppState.isLoading st) t.

(** ** Calls in flight and events *)

(** An awaited service call, with the arguments it was started with. *)
Inductive Pending :=
  | PendingFetch (url : string)
  | PendingRun (html selector : string).

Record World := mk_world { state : AppState.t; pending : list Pending }.

Inductive Event :=
  | EditUrl (s : string)          (** [onChange] of the URL input *)
  | EditSelector (s : string)     (** [onChange] of the locator input *)
  | EditHtml (s : string)         (** [onChange] of the source textarea *)
  | ClickTab (t : Tab)            (** the two tab buttons *)
  | ClickFetch                    (** the Fetch Page button *)
  | ClickRun                      (** the Run Locator button *)
  | KeyDown (key : string)        (** [onKeyDown] of the locator input *)
  | Settle (i : nat) (r : Reply). (** the [i]-th awaited call settles with [r] *)

Section with_parser.
Variable json_parse : string -> option jsval.

(** [handleFetch], up to its [await]. *)
Definition handleFetch (w : World) : World :=
  let st := state w in
  if String.eqb (AppState.url st) "" then w
  else mk_world (set_isLoading true st) (pending w ++ [PendingFetch (AppState.url st)]).

(** [handleRunSelector], up to its [await]. *)
Definition handleRunSelector (w : World) : World :=
  let st := state w in
  if String.eqb (AppState.selector st) "" || String.eqb (AppState.html st) "" then w
  else mk_world (set_isLoading true st)
                (pending w ++ [PendingRun (AppState.html st) (AppState.selector st)]).

(** The rest of a handler once its call has settled with [r]. *)
Definition resume (p : Pending) (r : Reply) (st : AppState.t) : AppState.t :=
  match p with
  | PendingFetch u => set_isLoading false (set_html (fetchUrlSimulated u r) st)
  | PendingRun h s => set_isLoading false (set_result (processSelector json_parse h s r) st)
  end.

(** One event. [None] when it cannot happen: a disabled button, the
  textarea while the preview tab is shown, no [i]-th awaited call. *)
Definition step (w : World) (e : Event) : option World :=
  let st := state w in
  match e with
  | EditUrl s => Some (mk_world (set_url s st) (pending w))
  | EditSelector s => Some (mk_world (set_selector s st) (pending w))
  | EditHtml s =>
      match AppState.activeTab st with
      | TabSource => Some (mk_world (set_html s st) (pending w))
      | TabPreview => None
      end
  | ClickTab t => Some (mk_world (set_activeTab t st) (pending w))
  | ClickFetch => if AppState.isLoading st then None else Some (handleFetch w)
  | ClickRun => if AppState.isLoading st then None else Some (handleRunSelector w)
  | KeyDown k => Some (if String.eqb k "Enter" then handleRunSelector w else w)
  | Settle i r =>
      p ← pending w !! i;
      Some (mk_world (resume p r st) (delete i (pending w)))
  end.

(** The world after mounting: the initial state, then the [useEffect]
  that calls [handleRunSelector] once. *)
Definition mounted : World := handleRunSelector (mk_world initial_state []).

Inductive reachable : World -> Prop :=
  | reachable_mounted : reachable mounted
  | reachable_step w e w' : reachable w -> step w e = Some w' -> reachable w'.

(** A sequence of events, run from [w]. *)
Fixpoint run (w : World) (es : list Event) : option World :=
  match es with
  | [] => Some w
  | e :: es' => w' ← step w e; run w' es'
  end.
End with_parser.

(** ** Invariants *)

(** An awaited call was started by a handler whose guard held. *)
Definition pending_ok (p : Pending) : Prop :=
  match p with
  | PendingFetch u => u <> ""
  | PendingRun h s => h <> "" /\ s <> ""
  end.

Definition world_inv (w : World) : Prop :=
  (AppState.isLoading (state w) = true -> pending w <> [])
  /\ Forall pending_ok (pending w).

Section invariants.
Variable json_parse : string -> option jsval.

(** The result on screen is [processSelector]'s answer for some non-empty
  HTML and locator. *)
Definition result_ok (st : AppState.t) : Prop :=
  match AppState.result st with
  | None => True
  | Some res => exists h s r, h <> "" /\ s <> "" /\ res = processSelector json_parse h s r
  end.

Lemma handleFetch_inv w : world_inv w -> world_inv (handleFetch w).
Proof.
  unfold handleFetch. destruct (String.eqb_spec (AppState.url (state w)) "") as [|Hu];
    [done|]. intros [_ Hall]. split; simpl.
  - intros _. by destruct (pending w).
  - apply Forall_app. split; [done|]. by constructor.
Qed.

Lemma handleRunSelector_inv w : world_inv w -> world_inv (handleRunSelector w).
Proof.
  unfold handleRunSelector.
  destruct (String.eqb_spec (AppState.selector (state w)) "") as [|Hs]; [done|].
  destruct (String.eqb_spec (AppState.html (state w)) "") as [|Hh]; [done|].
  intros [_ Hall]. split; simpl.
  - intros _. by destruct (pending w).
  - apply Forall_app. split; [done|]. by constructor.
Qed.

Lemma resume_not_loading p r st : AppState.isLoading (resume json_parse p r st) = false.
Proof. by destruct p. Qed.

Lemma step_inv w e w' : world_inv w -> step json_parse w e = Some w' -> world_inv w'.
Proof.
  intros Hw. destruct e; simpl.
  - intros [= <-]. apply Hw.
  - intros [= <-]. apply Hw.
  - destruct (AppState.activeTab (state w)); [done|]. intros [= <-]. apply Hw.
  - intros [= <-]. apply Hw.
  - destruct (AppState.isLoading (state w)); [done|]. intros [= <-]. by apply handleFetch_inv.
  - destruct (AppState.isLoading (state w)); [done|]. intros [= <-].
    by apply handleRunSelector_inv.
  - intros [= <-]. destruct (String.eqb key "Enter"); [by apply handleRunSelector_inv|done].
  - destruct (pending w !! i) as [p|]; [|done]. intros [= <-]. split; simpl.
    + by rewrite resume_not_loading.
    + apply Forall_delete, Hw.
Qed.

Lemma mounted_inv : world_inv (mounted).
Proof. apply handleRunSelector_inv. split; [done|constructor]. Qed.

Lemma reachable_inv w : reachable json_parse w -> world_inv w.
Proof. induction 1; eauto using mounted_inv, step_inv. Qed.

Lemma run_reachable w es w' :
  reachable json_parse w -> run json_parse w es = Some w' -> reachable json_parse w'.
Proof.
  revert w; induction es as [|e es IH]; intros w Hw; simpl; [by intros [= <-]|].
  destruct (step json_parse w e) as [w1|] eqn:He; [|done].
  apply IH. by apply (reachable_step _ w e).
Qed.

(** C6 (invariant): while the spinner shows ([isLoading]), some call is
  in flight. *)
Theorem loading_has_pending w :
  reachable json_parse w -> AppState.isLoading (state w) = true -> pending w <> [].
Proof. intros Hw. apply (reachable_inv w Hw). Qed.

(** C7 (safety): every call in flight was started with a non-empty URL,
  or with non-empty HTML and locator: [processSelector] is never
  called with an empty locator. *)
Theorem pending_guarded w :
  reachable json_parse w -> Forall pending_ok (pending w).
Proof. intros Hw. apply (reachable_inv w Hw). Qed.

(** Only the settling of a run writes the result. *)
Lemma step_result w e w' :
  step json_parse w e = Some w' ->
  AppState.result (state w') = AppState.result (state w)
  \/ exists i h s r, e = Settle i r /\ pending w !! i = Some (PendingRun h s)
       /\ AppState.result (state w') = Some (processSelector json_parse h s r).
Proof.
  destruct e as [| | | | | | |i r]; simpl.
  8: { destruct (pending w !! i) as [[u|h s]|] eqn:Hi; intros ?; simplify_eq/=; [by left|].
       right. by exists i, h, s, r. }
  all: repeat case_match; intros ?; simplify_eq/=; left;
    unfold handleFetch, handleRunSelector; repeat case_match; done.
Qed.

(** C23 (invariant): every result on screen is [processSelector]'s
  answer for a non-empty HTML and a non-empty locator: no code path
  writes a result of its own, and no run starts with an empty
  argument. *)
Theorem result_provenance w : reachable json_parse w -> result_ok (state w).
Proof.
  induction 1 as [|w e w' Hw IH Hstep]; [done|].
  destruct (step_result w e w' Hstep) as [Hr|(i & h & s & r & -> & Hi & Hr)];
    unfold result_ok; rewrite Hr; [exact IH|].
  pose proof (Forall_lookup_1 _ _ _ _ (proj2 (reachable_inv w Hw)) Hi) as [Hh Hs].
  by exists h, s, r.
Qed.

(** ** Interleavings *)

Lemma run_mounted es w : run json_parse mounted es = Some w -> reachable json_parse w.
Proof. apply run_reachable. constructor. Qed.

(** Pressing Enter [n] times queues [n] more runs. *)
Lemma enter_queues n w :
  AppState.selector (state w) <> "" -> AppState.html (state w) <> "" ->
  exists w', run json_parse w (repeat (KeyDown "Enter") n) = Some w'
             /\ length (pending w') = length (pending w) + n.
Proof.
  revert w; induction n as [|n IH]; intros w Hs Hh; simpl; [exists w; split; [done|lia]|].
  unfold handleRunSelector.
  destruct (String.eqb_spec (AppState.selector (state w)) "") as [|_]; [done|].
  destruct (String.eqb_spec (AppState.html (state w)) "") as [|_]; [done|]. simpl.
  destruct (IH (mk_world (set_isLoading true (state w))
                         (pending w ++ [PendingRun (AppState.html (state w))
                                                   (AppState.selector (state w))])))
    as (w' & Hrun & Hlen); [done|done|].
  exists w'. split; [done|]. rewrite Hlen. simpl. rewrite length_app. simpl. lia.
Qed.

(** C8 (safety): the spinner can be off while a call is still in flight:
  Enter starts a second run during the first, and the first to settle,
  whatever its reply, clears [isLoading] for both. *)
Theorem loading_cleared_while_pending (r : Reply) :
  exists w, run json_parse mounted [KeyDown "Enter"; Settle 0 r] = Some w
    /\ reachable json_parse w
    /\ AppState.isLoading (state w) = false /\ pending w <> [].
Proof.
  eexists. split; [reflexivity|]. split.
  { apply (run_mounted [KeyDown "Enter"; Settle 0 r]). reflexivity. }
  simpl. split; [done|discriminate].
Qed.

(** C9 (safety): out-of-order replies leave a stale result, whatever
  the replies are: the user changes the locator to ["tag:li"] and
  presses Enter while the first run (for ["@id=container"]) is in
  flight; the newer run settles first and the older one last, so with
  nothing in flight and the spinner off the panel shows the result of
  the old locator while the locator reads ["tag:li"]. *)
Theorem stale_result_reachable (r_old r_new : Reply) :
  exists w, run json_parse mounted
              [EditSelector "tag:li"; KeyDown "Enter"; Settle 1 r_new; Settle 0 r_old] = Some w
    /\ reachable json_parse w
    /\ pending w = [] /\ AppState.isLoading (state w) = false
    /\ AppState.selector (state w) = "tag:li"
    /\ AppState.result (state w) = Some (processSelector json_parse initial_html "@id=container" r_old).
Proof.
  eexists. split; [reflexivity|]. split.
  { apply (run_mounted [EditSelector "tag:li"; KeyDown "Enter"; Settle 1 r_new; Settle 0 r_old]).
    reflexivity. }
  simpl. repeat split.
Qed.

(** C10 (bounds): the number of calls in flight is unbounded: the Enter
  key is not disabled while loading. *)
Theorem pending_unbounded n :
  exists w, reachable json_parse w /\ length (pending w) = S n.
Proof.
  destruct (enter_queues n mounted) as (w & Hrun & Hlen); [simpl; done|simpl; done|].
  exists w. split; [by apply (run_mounted _ _ Hrun)|]. rewrite Hlen. simpl. lia.
Qed.

(** C11 (functional): with an empty locator, Enter and the Run button do
  nothing: no request, no error result; the previous result stays on
  screen. *)
Theorem empty_locator_noop w :
  AppState.selector (state w) = "" ->
  step json_parse w (KeyDown "Enter") = Some w
  /\ (AppState.isLoading (state w) = false -> step json_parse w ClickRun = Some w).
Proof.
  intros Hs. unfold step, handleRunSelector. rewrite Hs. simpl.
  split; [done|]. intros ->. done.
Qed.

(** C12 (safety): an edit of the HTML made while a fetch is in flight is
  lost when the fetch settles: whatever the user typed ([s]) and
  whatever the reply ([r]), the HTML becomes the page the fetch
  returns. *)
Theorem fetch_overwrites_edit (s : string) (r : Reply) :
  exists w1 w2 w3, reachable json_parse w1
    /\ step json_parse w1 (EditHtml s) = Some w2
    /\ AppState.html (state w2) = s
    /\ step json_parse w2 (Settle 0 r) = Some w3
    /\ AppState.html (state w3) = fetchUrlSimulated "https://example.com" r.
Proof.
  do 3 eexists. split; [apply (run_mounted [Settle 0 Rejected; ClickFetch]); simpl; reflexivity|].
  simpl. repeat split.
Qed.
(** ** Progress *)

(** No call in flight and no spinner. *)
Definition quiescent (w : World) : Prop :=
  pending w = [] /\ AppState.isLoading (state w) = false.

(** Settling the first call in flight, whatever the reply, keeps the
  invariant and removes that call. *)
Lemma settle_first w r p ps :
  world_inv w -> pending w = p :: ps ->
  exists w', step json_parse w (Settle 0 r) = Some w' /\ world_inv w' /\ pending w' = ps.
Proof.
  intros Hw Hp. eexists. split; [unfold step; rewrite Hp; simpl; reflexivity|].
  split; [|done]. apply (step_inv w (Settle 0 r)); [exact Hw|]. unfold step. by rewrite Hp.
Qed.

Lemma settle_all_inv w rs :
  world_inv w -> length rs = length (pending w) ->
  exists w', run json_parse w (map (Settle 0) rs) = Some w' /\ quiescent w'.
Proof.
  revert w; induction rs as [|r rs IH]; intros w Hw Hlen.
  - exists w. split; [done|]. destruct (pending w) eqn:Hp; [|done]. split; [done|].
    destruct (AppState.isLoading (state w)) eqn:Hl; [|done]. by apply Hw in Hl.
  - destruct (pending w) as [|p ps] eqn:Hp; [done|].
    destruct (settle_first w r p ps Hw Hp) as (w1 & Hs & Hw1 & Hp1).
    destruct (IH w1 Hw1) as (w' & Hrun & Hq); [rewrite Hp1; simpl in Hlen; lia|].
    exists w'. split; [|done]. cbn [run map]. rewrite Hs. exact Hrun.
Qed.

(** C24 (liveness): from every reachable state the page comes to rest:
  whatever the replies are, settling the calls in flight one after the
  other, each with its reply, ends with no call in flight and the
  spinner off. *)
Theorem eventually_quiescent w rs :
  reachable json_parse w -> length rs = length (pending w) ->
  exists w', run json_parse w (map (Settle 0) rs) = Some w' /\ quiescent w'.
Proof. intros Hw. apply settle_all_inv, reachable_inv, Hw. Qed.

End invariants.

(** ** Witnesses, with the parser of [Json] *)

Lemma loading_has_pending_witness :
  reachable Json.parse mounted /\ AppState.isLoading (state mounted) = true
  /\ pending mounted <> [].
Proof.
  split; [constructor|]. split; [vm_compute; reflexivity|].
  apply (loading_has_pending Json.parse mounted); [constructor|vm_compute; reflexivity].
Defined.

Lemma pending_guarded_witness :
  reachable Json.parse mounted /\ Forall pending_ok (pending mounted).
Proof. split; [constructor|]. apply (pending_guarded Json.parse mounted). constructor. Defined.

(** The mounted state after the locator was cleared. *)
Definition cleared : World := mk_world (set_selector "" initial_state) [].

Lemma empty_locator_noop_witness :
  AppState.selector (state cleared) = ""
  /\ step Json.parse cleared (KeyDown "Enter") = Some cleared
  /\ (AppState.isLoading (state cleared) = false -> step Json.parse cleared ClickRun = Some cleared).
Proof.
  split; [reflexivity|]. apply (empty_locator_noop Json.parse cleared). reflexivity.
Defined.

(** The world once the initial run has failed. *)
Definition settled_world : World := default mounted (run Json.parse mounted [Settle 0 Rejected]).

Lemma result_provenance_witness :
  reachable Json.parse settled_world /\ result_ok Json.parse (state settled_world).
Proof.
  assert (reachable Json.parse settled_world) as Hr
    by (apply (run_mounted Json.parse [Settle 0 Rejected]); reflexivity).
  split; [exact Hr|]. apply (result_provenance Json.parse settled_world Hr).
Defined.

Lemma eventually_quiescent_witness :
  exists w', run Json.parse mounted (map (Settle 0) [Resolved (Some "{}")]) = Some w'
             /\ quiescent w'.
Proof. apply (eventually_quiescent Json.parse mounted); [constructor|reflexivity]. Defined.

End App.
