(* ===== verification/Discipline.v ===== *)
(** * The page used as its buttons allow

    The Fetch Page and Run Locator buttons are disabled while
    [isLoading], so a user who only clicks them never starts a second
    call while one is in flight; the Enter key of the locator field is
    the one control that ignores [isLoading] ([App.tsx] line 120). This
    file restricts [App.step] to the events of such a user: every event,
    except Enter pressed while loading ([disciplined_event]), from the
    mount on ([reachable_disciplined]). Along those runs at most one call
    is in flight and the spinner shows exactly while one is, so the
    stale results (C9), the spinner cleared too early (C8) and the
    unbounded calls (C10) all come from the Enter key. The textarea is
    not disabled while loading, though: an edit made while a run is in
    flight is followed by that run's answer, for the HTML before the
    edit (C28). *)

From S2P Require Import Prelude JsValue Json Types GeminiService App.

Module Discipline.
Import GeminiService App.

Section with_parser.
Variable json_parse : string -> option jsval.

(** Every event but Enter while a call is loading. *)
Definition disciplined_event (w : World) (e : Event) : Prop :=
  match e with
  | KeyDown k => String.eqb k "Enter" = false \/ AppState.isLoading (state w) = false
  | _ => True
  end.

Inductive reachable_disciplined : World -> Prop :=
  | disciplined_mounted : reachable_disciplined mounted
  | disciplined_step w e w' :
      reachable_disciplined w -> disciplined_event w e -> step json_parse w e = Some w' ->
      reachable_disciplined w'.

End with_parser.

(** At most one call in flight, and the spinner shows exactly while one
    is. *)
Definition single_flight (w : World) : Prop :=
  length (pending w) <= 1 /\ (AppState.isLoading (state w) = true <-> pending w <> []).

(** The world after the mount, once its run has failed and another
    locator has been run with Enter. *)
Definition rerun_world : World :=
  default mounted (run Json.parse mounted [Settle 0 Rejected; EditSelector "tag:li"; KeyDown "Enter"]).

(** ** Lemmas *)

(** A state update that keeps [isLoading] and the calls keeps the
    invariant. *)
Lemma single_flight_same w st :
  single_flight w -> AppState.isLoading st = AppState.isLoading (state w) ->
  single_flight (mk_world st (pending w)).
Proof. intros [Hl Hs] Heq. split; [done|]. simpl. by rewrite Heq. Qed.

(** With nothing loading, nothing is in flight. *)
Lemma single_flight_idle w :
  single_flight w -> AppState.isLoading (state w) = false -> pending w = [].
Proof.
  intros [_ Hs] Hl. destruct (pending w) eqn:Hp; [done|].
  rewrite Hl in Hs. enough (false = true) by done. by apply Hs.
Qed.

Lemma handleRunSelector_single w :
  single_flight w -> AppState.isLoading (state w) = false -> single_flight (handleRunSelector w).
Proof.
  intros Hw Hl. pose proof (single_flight_idle w Hw Hl) as Hp.
  unfold handleRunSelector. case_match; [done|]. rewrite Hp. split; simpl; [lia|done].
Qed.

Lemma handleFetch_single w :
  single_flight w -> AppState.isLoading (state w) = false -> single_flight (handleFetch w).
Proof.
  intros Hw Hl. pose proof (single_flight_idle w Hw Hl) as Hp.
  unfold handleFetch. case_match; [done|]. rewrite Hp. split; simpl; [lia|done].
Qed.

(** Settling the only call in flight leaves none, and the spinner off. *)
Lemma settle_single w i p r json_parse :
  single_flight w -> pending w !! i = Some p ->
  single_flight (mk_world (resume json_parse p r (state w)) (delete i (pending w))).
Proof.
  intros [Hl _] Hi. destruct (pending w) as [|p0 [|p1 ps]] eqn:Hp; simpl in Hl; [done| |lia].
  destruct i as [|i]; [|by destruct i]. split; simpl; [lia|].
  rewrite resume_not_loading. naive_solver.
Qed.

Lemma step_single json_parse w e w' :
  single_flight w -> disciplined_event w e -> step json_parse w e = Some w' -> single_flight w'.
Proof.
  intros Hw He. destruct e as [| | |t| | |k|i r]; simpl.
  1-2, 4: intros [= <-]; by apply single_flight_same.
  - destruct (AppState.activeTab (state w)); [done|]. intros [= <-]. by apply single_flight_same.
  - destruct (AppState.isLoading (state w)) eqn:Hl; [done|]. intros [= <-]. by apply handleFetch_single.
  - destruct (AppState.isLoading (state w)) eqn:Hl; [done|]. intros [= <-].
    by apply handleRunSelector_single.
  - intros [= <-]. simpl in He. destruct (String.eqb k "Enter"); [|done].
    destruct He as [He|He]; [done|]. by apply handleRunSelector_single.
  - destruct (pending w !! i) as [p|] eqn:Hi; [|done]. intros [= <-]. by apply settle_single.
Qed.

(** ** Theorems *)

(** C27 (invariant): used as its buttons allow (any event but Enter
    while loading), the page never has more than one call in flight, and
    the spinner shows exactly while one is: each reply settles the call
    the user started last, so no result is stale and the spinner is not
    cleared early. *)
Theorem disciplined_single_flight json_parse w :
  reachable_disciplined json_parse w -> single_flight w.
Proof.
  induction 1 as [|w e w' _ IH He Hs].
  - split; [simpl; lia|done].
  - by eapply step_single.
Qed.

(** C28 (safety): used as its buttons allow, the page still comes to
    rest showing the answer for an HTML that is no longer in the editor:
    the source textarea is not disabled while a run is in flight, so an
    edit made during the mount's run, whatever the new HTML [h], is
    followed by the answer the model gave for the initial HTML, and
    nothing marks the result as stale. *)
Theorem result_for_replaced_html h r :
  exists w w', reachable_disciplined Json.parse w
    /\ pending w = [PendingRun initial_html "@id=container"]
    /\ step Json.parse w (Settle 0 r) = Some w'
    /\ quiescent w' /\ AppState.html (state w') = h
    /\ AppState.result (state w') = Some (processSelector Json.parse initial_html "@id=container" r).
Proof.
  exists (mk_world (set_html h (state mounted)) (pending mounted)). eexists. split_and!.
  - apply (disciplined_step _ mounted (EditHtml h)); [constructor|exact I|reflexivity].
  - reflexivity.
  - reflexivity.
  - split; reflexivity.
  - reflexivity.
  - reflexivity.
Qed.

(** ** Witnesses *)

Lemma disciplined_single_flight_witness :
  reachable_disciplined Json.parse rerun_world /\ single_flight rerun_world.
Proof.
  assert (reachable_disciplined Json.parse rerun_world) as Hw.
  { pose (w1 := default mounted (step Json.parse mounted (Settle 0 Rejected))).
    pose (w2 := default mounted (step Json.parse w1 (EditSelector "tag:li"))).
    apply (disciplined_step _ w2 (KeyDown "Enter")); [|right; reflexivity|reflexivity].
    apply (disciplined_step _ w1 (EditSelector "tag:li")); [|exact I|reflexivity].
    apply (disciplined_step _ mounted (Settle 0 Rejected)); [constructor|exact I|reflexivity]. }
  split; [exact Hw|]. apply (disciplined_single_flight Json.parse rerun_world Hw).
Defined.

End Discipline.
