(* ===== verification/View.v ===== *)
(** * The page of [src/App.tsx]

    The controls and the workspace (lines 90-167) as a function of the
    state ([controls]): the URL and locator inputs, the Fetch and Run
    buttons disabled while loading, the tabs, and the source textarea or
    the preview [div] whose [innerHTML] is the HTML.

    The right-hand panel (lines 170-227) as a function of the state: the
    badge [{state.result.count} Matches] when there is a result, then the
    spinner while loading, one card per element when there are elements,
    or "No matches found". A card shows [el.tag], its number [i + 1],
    [el.text] (or the placeholder "No direct text" when it is falsy), the
    [Object.entries] of [el.attributes] and [el.html]. The rows of the
    attribute list come in [Object.entries] order: names that are array
    indices first, by numeric value, then the others in the order the
    reshaping's [reduce] created them (C16).

    React renders a child value as text when it is a string or a number,
    renders nothing for booleans, [null] and [undefined], renders an array
    item by item, and throws on a plain object ("Objects are not valid as
    a React child"); the page has no error boundary, so a throw in the
    render leaves the page blank. [results_panel] is [None] then. *)

From S2P Require Import Prelude JsValue JsObject Json Types GeminiService App.

Module View.
Import GeminiService App.

(** ** Rendering *)

(** A value rendered as a React child: its text nodes, or [None] when the
    render throws. *)
Fixpoint render_child (v : jsval) : option (list string) :=
  match v with
  | JStr s => Some [s]
  | JNum n => Some [number_to_string n]
  | JBool _ | JNull | JUndefined => Some []
  | JArr vs =>
      (fix go vs :=
         match vs with
         | [] => Some []
         | w :: ws => a ← render_child w; b ← go ws; Some (a ++ b)
         end) vs
  | JObj _ => None
  end.

(** A property read in the render; a read on [null] or [undefined]
    throws. *)
Definition read (v : jsval) (k : string) : option jsval :=
  match get v k with inr x => Some x | inl _ => None end.

(** [Object.entries(v)]: ToObject throws on [null] and [undefined]. *)
Definition object_entries (v : jsval) : option props :=
  match v with
  | JUndefined | JNull => None
  | _ => Some (own_enumerable v)
  end.

(** The text line of a card: [{el.text || <span>No direct text</span>}]. *)
Inductive TextLine :=
| Rendered (t : list string)
| NoDirectText.

Record Card := mk_card {
  card_tag : list string;
  card_number : nat;
  card_text : TextLine;
  card_attributes : list (string * list string);
  card_html : list string
}.

Inductive Body :=
| Spinner
| Cards (cs : list Card)
| NoMatches.

Record Panel := mk_panel { badge : option (list string); body : Body }.

(** The rows of the attribute list: the key and the rendered value. *)
Fixpoint render_entries (es : props) : option (list (string * list string)) :=
  match es with
  | [] => Some []
  | (k, v) :: es' => t ← render_child v; rs ← render_entries es'; Some ((k, t) :: rs)
  end.

(** The card of element [el] at index [i]. *)
Definition render_card (i : nat) (el : jsval) : option Card :=
  tagv ← read el "tag"; tag ← render_child tagv;
  textv ← read el "text";
  text ← (if truthy textv then Rendered <$> render_child textv else Some NoDirectText);
  attrsv ← read el "attributes"; es ← object_entries attrsv; rows ← render_entries es;
  htmlv ← read el "html"; html ← render_child htmlv;
  Some (mk_card tag (S i) text rows html).

(** [state.result.elements.map((el, i) => ...)], from index [i]. *)
Fixpoint render_cards (i : nat) (els : list jsval) : option (list Card) :=
  match els with
  | [] => Some []
  | el :: els' => c ← render_card i el; cs ← render_cards (S i) els'; Some (c :: cs)
  end.

(** The results panel of the state. *)
Definition results_panel (st : AppState.t) : option Panel :=
  b ← match AppState.result st with
      | None => Some None
      | Some r => (fun t => Some (t ++ [" Matches"])) <$> render_child (ProcessingResult.count r)
      end;
  bd ← (if AppState.isLoading st then Some Spinner
        else match AppState.result st with
             | Some r =>
                 match ProcessingResult.elements r with
                 | [] => Some NoMatches
                 | els => Cards <$> render_cards 0 els
                 end
             | None => Some NoMatches
             end);
  Some (mk_panel b bd).

(** ** The controls and the workspace (lines 89-167) *)

(** The left panel shows the HTML source in a textarea, or the preview:
    a [div] whose [innerHTML] is the state's HTML
    ([dangerouslySetInnerHTML]). *)
Inductive Workspace :=
| SourceEditor (value : string)
| Preview (inner_html : string).

Record Controls := mk_controls {
  url_input : string;
  fetch_disabled : bool;
  fetch_spinning : bool;
  selector_input : string;
  run_disabled : bool;
  run_spinning : bool;
  source_tab_selected : bool;
  preview_tab_selected : bool;
  workspace : Workspace
}.

Definition controls (st : AppState.t) : Controls :=
  mk_controls (AppState.url st) (AppState.isLoading st) (AppState.isLoading st)
    (AppState.selector st) (AppState.isLoading st) (AppState.isLoading st)
    (bool_decide (AppState.activeTab st = TabSource))
    (bool_decide (AppState.activeTab st = TabPreview))
    (match AppState.activeTab st with
     | TabSource => SourceEditor (AppState.html st)
     | TabPreview => Preview (AppState.html st)
     end).

(** The attributes of an element as a record of strings, in creation
    order. *)
Definition string_record (l : list (string * string)) : props :=
  map (fun kv => (kv.1, JStr kv.2)) l.

(** A row of the attribute list: the key, and the text of a string. *)
Definition string_row (kv : string * jsval) : string * list string :=
  (kv.1, match kv.2 with JStr s => [s] | _ => [] end).

(** The card the panel shows for an element of the declared type at
    index [i]: its tag, its number, its text or the placeholder, its
    attributes in [Object.entries] order, its HTML. *)
Definition card_of (i : nat) (e : ExtractedElement.t) : Card :=
  mk_card [ExtractedElement.tag e] (S i)
    (if String.eqb (ExtractedElement.text e) "" then NoDirectText
     else Rendered [ExtractedElement.text e])
    (map string_row (entries (string_record (ExtractedElement.attributes e))))
    [ExtractedElement.html e].

Fixpoint cards_of (i : nat) (els : list ExtractedElement.t) : list Card :=
  match els with
  | [] => []
  | e :: els' => card_of i e :: cards_of (S i) els'
  end.

(** A result the panel can show: elements of the declared type and a
    numeric count. *)
Definition typed_result (r : ProcessingResult.t) : Prop :=
  Forall (fun e => is_Some (typed_element e)) (ProcessingResult.elements r)
  /\ exists n, ProcessingResult.count r = JNum n.

(** ** Lemmas *)

Lemma string_props_Some_inv ps l :
  string_props ps = Some l -> Forall (fun kv => exists s, kv.2 = JStr s) ps.
Proof.
  revert l; induction ps as [|[k [| | | |s| |]] ps IH]; intros l; simpl; try done.
  destruct (string_props ps) as [l'|] eqn:E; [|done]. intros _.
  constructor; [by exists s|]. by apply (IH l').
Qed.

Lemma string_props_Some_eq ps l : string_props ps = Some l -> ps = string_record l.
Proof.
  revert l; induction ps as [|[k [| | | |s'| |]] ps IH]; intros l; simpl; try done; [by intros [= <-]|].
  destruct (string_props ps) as [l'|] eqn:E; [|done]. intros [= <-]. simpl. by rewrite (IH l').
Qed.

Lemma render_entries_rows es :
  Forall (fun kv => exists s, kv.2 = JStr s) es -> render_entries es = Some (map string_row es).
Proof.
  induction 1 as [|[k v] es [s' Hs] _ IH]; simpl in *; [done|]. subst v. by rewrite IH.
Qed.

(** The entries of a record of strings are strings. *)
Lemma entries_strings ps :
  Forall (fun kv => exists s, kv.2 = JStr s) ps ->
  Forall (fun kv => exists s, kv.2 = JStr s) (entries ps).
Proof.
  intros Hps. unfold entries. apply Forall_forall.
  intros [k v] Hkv. apply list_elem_of_In, in_map_iff in Hkv as (k' & [= <- <-] & Hk').
  apply list_elem_of_In in Hk'. simpl.
  destruct (props_lookup k' ps) as [v|] eqn:E; simpl.
  - apply (props_lookup_Forall (fun v => exists s, v = JStr s) ps k' v); [|done].
    eapply Forall_impl; [exact Hps|]. naive_solver.
  - exfalso. rewrite own_keys_perm in Hk'. by apply props_lookup_None in E.
Qed.

(** The entries of a record of strings render. *)
Lemma render_entries_strings ps :
  Forall (fun kv => exists s, kv.2 = JStr s) ps -> is_Some (render_entries (entries ps)).
Proof. intros Hps. rewrite render_entries_rows by by apply entries_strings. by eexists. Qed.

(** An element of the declared type is shown as its card. *)
Lemma render_card_typed_eq i el e :
  typed_element el = Some e -> render_card i el = Some (card_of i e).
Proof.
  destruct el as [| | | | | |ps]; try discriminate. unfold typed_element.
  destruct (props_lookup "tag" ps) as [[| | | |t| |]|] eqn:Ht; try discriminate.
  destruct (props_lookup "text" ps) as [[| | | |x'| |]|] eqn:Hx; try discriminate.
  destruct (props_lookup "attributes" ps) as [[| | | | | |A]|] eqn:Ha; try discriminate.
  simpl. destruct (string_props A) as [l|] eqn:Hl; [|done].
  destruct (props_lookup "html" ps) as [[| | | |h| |]|] eqn:Hh; try discriminate. intros [= <-].
  unfold render_card, read. simpl. rewrite Ht, Hx, Ha, Hh. simpl.
  rewrite render_entries_rows by (apply entries_strings, string_props_Some_inv with l, Hl).
  apply string_props_Some_eq in Hl as ->. unfold card_of. simpl.
  by destruct (String.eqb x' "").
Qed.

Lemma render_card_typed i el x :
  typed_element el = Some x -> exists c, render_card i el = Some c.
Proof. intros Hx. eexists. by apply render_card_typed_eq. Qed.

Lemma render_cards_typed_eq i evs els :
  Forall2 (fun ev e => typed_element ev = Some e) evs els -> render_cards i evs = Some (cards_of i els).
Proof.
  intros H. revert i. induction H as [|ev e evs els He _ IH]; intros i; simpl; [done|].
  by rewrite (render_card_typed_eq i ev e He), IH.
Qed.

Lemma render_cards_typed i els :
  Forall (fun e => is_Some (typed_element e)) els -> is_Some (render_cards i els).
Proof.
  intros Hels. revert i. induction Hels as [|el els [x Hx] _ IH]; intros i; simpl; [by eexists|].
  destruct (render_card_typed i el x Hx) as [c ->]. destruct (IH (S i)) as [cs ->]. by eexists.
Qed.

Lemma render_cards_fail i els j el :
  els !! j = Some el -> render_card (i + j) el = None -> render_cards i els = None.
Proof.
  revert i j; induction els as [|el' els IH]; intros i j Hj Hc; [done|]. simpl.
  destruct j as [|j]; simpl in Hj.
  - injection Hj as <-. rewrite Nat.add_0_r in Hc. by rewrite Hc.
  - destruct (render_card i el'); [|done].
    rewrite (IH (S i) j); [done|done|]. by replace (S i + j) with (i + S j) by lia.
Qed.

(** A state whose result, if any, is typed renders its panel. *)
Lemma results_panel_Some st :
  (forall r, AppState.result st = Some r -> typed_result r) -> is_Some (results_panel st).
Proof.
  intros Hr. unfold results_panel.
  destruct (AppState.result st) as [r|]; [|by destruct (AppState.isLoading st); eexists].
  destruct (Hr r eq_refl) as [Hels [n Hn]]. rewrite Hn. simpl.
  destruct (AppState.isLoading st); simpl; [by eexists|].
  destruct (ProcessingResult.elements r) as [|el els]; simpl; [by eexists|].
  destruct (render_cards_typed 0 (el :: els) Hels) as [cs Hcs].
  simpl in Hcs. rewrite Hcs. by eexists.
Qed.

(** The names of the rows: [Object.entries] order of the keys of the
    [reduce]'s record. *)
Lemma card_rows_order l :
  let names := first_occurrences (filter (fun k => k <> "__proto__") (map fst l)) in
  exists idx, map fst (map string_row (entries (attrs_json l)))
              = map snd idx ++ filter (fun k => array_index k = None) names
    /\ map snd idx ≡ₚ filter (fun k => array_index k <> None) names
    /\ Sorted index_le idx /\ Forall (fun nk => array_index nk.2 = Some nk.1) idx.
Proof.
  cbv zeta. rewrite map_map. change (map (fun x => (string_row x).1) ?es) with (props_keys es).
  rewrite entries_keys. pose proof (own_keys_perm (attrs_json l)) as Hp.
  destruct (own_keys_sorted (attrs_json l)) as (idx & Ho & Hs & Hi).
  rewrite attrs_json_keys in Ho, Hp. rewrite Ho in Hp |- *. exists idx. split_and!; [done| |done|done].
  set (N := first_occurrences _) in Hp |- *.
  apply (Permutation_app_inv_r (filter (fun k => array_index k = None) N)).
  rewrite Hp, Permutation_app_comm. symmetry. apply filter_app_complement.
Qed.

(** The values of the rows: the last value of each name. *)
Lemma card_rows_values l :
  Forall (fun row => exists v, last_value row.1 l = Some v /\ row.2 = [v])
    (map string_row (entries (attrs_json l))).
Proof.
  unfold entries. rewrite !Forall_map. apply Forall_forall. intros k Hk. simpl.
  rewrite own_keys_perm, attrs_json_keys, elem_of_first_occurrences, list_elem_of_filter in Hk.
  destruct Hk as [Hk Hk']. rewrite attrs_json_lookup by done.
  destruct (last_value k l) as [v|] eqn:E; [by exists v|].
  exfalso. apply (props_lookup_None k (attrs_json l)); [|rewrite attrs_json_keys, elem_of_first_occurrences, list_elem_of_filter; done].
  by rewrite attrs_json_lookup, E.
Qed.

(** ** Theorems *)

(** C16 (functional): the attribute rows of a card, for an element whose
    attributes the model lists in any order, with repeated names or the
    name ["__proto__"]: one row per name the [reduce] kept (C5), the
    names that are array indices first, by ascending numeric value, then
    the other names in the order of their first occurrence, each with
    the value it has last. So [data-x] then [2] then [10] in the reply
    are shown as [2], [10], [data-x]. *)
Theorem card_attribute_rows i e :
  let names := first_occurrences
                 (filter (fun k => k <> "__proto__") (map fst (ExtractedElement.attributes e))) in
  exists ev c, reshape_element (encode_element e) = inr ev /\ render_card i ev = Some c
    /\ (exists idx, map fst (card_attributes c)
                    = map snd idx ++ filter (fun k => array_index k = None) names
          /\ map snd idx ≡ₚ filter (fun k => array_index k <> None) names
          /\ Sorted index_le idx /\ Forall (fun nk => array_index nk.2 = Some nk.1) idx)
    /\ Forall (fun row => exists v, last_value row.1 (ExtractedElement.attributes e) = Some v
                                    /\ row.2 = [v])
              (card_attributes c).
Proof.
  cbv zeta. destruct (reshape_encode_element_record e) as (ev & l & He & Ht & Hl).
  eexists ev, _. split; [done|]. split; [by apply render_card_typed_eq|].
  apply string_props_Some_eq in Hl. unfold card_of. simpl. rewrite <-Hl.
  split; [apply card_rows_order|apply card_rows_values].
Qed.

(** C17 (functional): a result without elements and with a numeric
    count [n] is shown as the badge "[n] Matches" over "No matches found",
    whatever its [error] field holds: the error message of a failed call
    is never displayed, an error looks like an empty match, and a count
    the model made up is shown over an empty list. *)
Theorem empty_result_panel st r n :
  AppState.isLoading st = false ->
  ProcessingResult.elements r = [] -> ProcessingResult.count r = JNum n ->
  results_panel (set_result r st) = Some (mk_panel (Some [number_to_string n; " Matches"]) NoMatches).
Proof.
  intros Hl He Hc. unfold results_panel. simpl. rewrite Hc, Hl, He. reflexivity.
Qed.

(** C18 (type): a result whose elements have the declared
    [ExtractedElement] type and whose count is a number renders without
    throwing. *)
Theorem results_panel_typed st r :
  Forall (fun e => is_Some (typed_element e)) (ProcessingResult.elements r) ->
  (exists n, ProcessingResult.count r = JNum n) ->
  is_Some (results_panel (set_result r st)).
Proof.
  intros Hels Hn. apply results_panel_Some. intros r' [= <-]. by split.
Qed.

(** C19 (error): an element whose [tag] is an object makes the render
    throw, whatever the other elements and the count: React refuses a
    plain object as a child and the page goes blank. The schema forbids such a reply, the reshaping does not check
    it. *)
Theorem results_panel_object_tag st r j el ps :
  AppState.isLoading st = false ->
  ProcessingResult.elements r !! j = Some el -> read el "tag" = Some (JObj ps) ->
  results_panel (set_result r st) = None.
Proof.
  intros Hl Hj Ht. unfold results_panel. simpl.
  destruct (render_child (ProcessingResult.count r)); [|done]. simpl. rewrite Hl.
  destruct (ProcessingResult.elements r) as [|el0 els] eqn:E; [done|].
  assert (render_cards 0 (el0 :: els) = None) as Hnone.
  { apply (render_cards_fail 0 (el0 :: els) j el Hj). unfold render_card. by rewrite Ht. }
  simpl in Hnone |- *. by rewrite Hnone.
Qed.

(** C21 (safety): the text of a fetch reply reaches the page as raw
    HTML: after the initial run settles, a fetch whose reply is any
    non-empty text [t] puts [t] into the state, and the preview tab sets
    it as the [innerHTML] of the page, unsanitized. *)
Theorem preview_injects_reply json_parse t :
  t <> "" ->
  exists w, run json_parse mounted
              [Settle 0 Rejected; ClickFetch; Settle 0 (Resolved (Some t)); ClickTab TabPreview]
            = Some w
    /\ reachable json_parse w /\ workspace (controls (state w)) = Preview t.
Proof.
  intros Ht. eexists. split; [reflexivity|]. split.
  { apply (run_mounted json_parse
             [Settle 0 Rejected; ClickFetch; Settle 0 (Resolved (Some t)); ClickTab TabPreview]).
    reflexivity. }
  simpl. unfold fetchUrlSimulated, text_or. by rewrite (proj2 (String.eqb_neq t "") Ht).
Qed.

(** ** Witnesses *)

(** The state after a failed call. *)
Definition failed_state : AppState.t :=
  set_result (error_result "@id=a") (set_isLoading false initial_state).

Lemma empty_result_panel_witness :
  results_panel failed_state = Some (mk_panel (Some ["0"; " Matches"]) NoMatches).
Proof.
  apply (empty_result_panel (set_isLoading false initial_state) (error_result "@id=a") 0);
    reflexivity.
Defined.

(** The element of the specification's scenario as the reshaping returns
    it. *)
Definition scenario_shown : jsval :=
  JObj [("tag", JStr "div"); ("text", JStr "X"); ("attributes", JObj [("id", JStr "a")]);
        ("html", JStr (ExtractedElement.html scenario_element))].

Lemma results_panel_typed_witness :
  is_Some (results_panel (set_result (ProcessingResult.mk [scenario_shown]
                                                          (JNum 1) (JStr "@id=a") None)
                                     initial_state)).
Proof.
  apply results_panel_typed; [|by exists 1%Z].
  constructor; [|constructor]. vm_compute. eexists. reflexivity.
Defined.

(** A reply that breaks the schema: one element whose [tag] is the empty
    object. *)
Definition object_tag_reply : string :=
  "{" +:+ dq +:+ "elements" +:+ dq +:+ ":[{" +:+ dq +:+ "tag" +:+ dq +:+ ":{}}]}".

Definition object_tag_state : AppState.t :=
  set_result (processSelector Json.parse initial_html "@id=a" (Resolved (Some object_tag_reply)))
             (set_isLoading false initial_state).

Lemma results_panel_object_tag_witness : results_panel object_tag_state = None.
Proof.
  apply (results_panel_object_tag (set_isLoading false initial_state)
           (processSelector Json.parse initial_html "@id=a" (Resolved (Some object_tag_reply)))
           0 (JObj [("tag", JObj []); ("attributes", JObj [])]) []);
    [reflexivity|vm_compute; reflexivity|vm_compute; reflexivity].
Defined.

(** An element whose attributes come as [data-x], [2], [__proto__],
    [10], [data-x] is shown with the rows [2], [10], [data-x], the last
    with its second value. *)
Definition mixed_attributes : ExtractedElement.t :=
  ExtractedElement.mk "li" "" [("data-x", "a"); ("2", "b"); ("__proto__", "c"); ("10", "d");
                               ("data-x", "e")] "<li></li>".

Example card_attribute_rows_mixed :
  match reshape_element (encode_element mixed_attributes) with
  | inr ev => card_attributes <$> render_card 0 ev
  | inl _ => None
  end = Some [("2", ["b"]); ("10", ["d"]); ("data-x", ["e"])].
Proof. vm_compute. reflexivity. Qed.

(** A reply carrying an event-handler attribute. *)
Definition injected_page : string := "<img src=x onerror=alert(document.cookie)>".

Lemma preview_injects_reply_witness :
  exists w, run Json.parse mounted
              [Settle 0 Rejected; ClickFetch; Settle 0 (Resolved (Some injected_page));
               ClickTab TabPreview] = Some w
    /\ reachable Json.parse w /\ workspace (controls (state w)) = Preview injected_page.
Proof. apply preview_injects_reply. discriminate. Defined.

End View.
