(* ===== verification/CheatSheet.v ===== *)
(** * The cheat sheet ([src/components/CheatSheet.tsx])

    The help panel is a constant list of eight examples, each a label, a
    locator and a description, rendered in order. This file holds that
    list character for character, the panel that shows it, and what
    happens to an example the user types and runs: it is sent to the
    model as it is. *)

From S2P Require Import Prelude JsValue Json Types GeminiService App.

Module CheatSheet.
Import GeminiService App.

Record item := mk_item { label : string; value : string; desc : string }.

(** [items], lines 5-14. *)
Definition items : list item := [
  mk_item "Property" "@id=login" ("Finds element with id " +:+ dq +:+ "login" +:+ dq);
  mk_item "Tag" "tag:div" "Finds first div element";
  mk_item "Text" "text:Submit" ("Finds element containing text " +:+ dq +:+ "Submit" +:+ dq);
  mk_item "Combined" "tag:button@class=btn-primary" "Finds button with specific class";
  mk_item "CSS" "css:.main > p" "Standard CSS selector";
  mk_item "XPath" ("xpath://div[@id=" +:+ dq +:+ "app" +:+ dq +:+ "]") "Standard XPath";
  mk_item "Property Existence" "@href" "Finds elements with href attribute";
  mk_item "Fuzzy Match" "text=Click" ("Finds text matching " +:+ dq +:+ "Click" +:+ dq +:+ " partially")
].

(** ** The panel (lines 16-39) *)

(** One entry of the list: [key={idx}], the label, the locator in a
    [code] block, the description. *)
Record row := mk_row { key : nat; row_label : string; row_value : string; row_desc : string }.

Record panel := mk_panel { heading : string; rows : list row; footer : string }.

Definition footer_text : string :=
  dq +:+ "DrissionPage combines Selenium's ease of use with requests' performance."
  +:+ " Its locator syntax is uniquely flexible." +:+ dq.

(** [items.map((item, idx) => ...)] under the heading "Locator Help",
    then the quotation. *)
Definition render : panel :=
  mk_panel "Locator Help"
    (imap (fun idx it => mk_row idx (label it) (value it) (desc it)) items)
    footer_text.

(** ** Theorems *)

Lemma rows_nonempty : Forall (fun r => row_value r <> "") (rows render).
Proof. repeat constructor; discriminate. Qed.

(** C25 (functional): every locator the help panel shows, typed into the
    locator field and run while nothing is loading on a non-empty HTML,
    is sent to the model as it is: the run queued is for that HTML and
    that locator. *)
Theorem cheat_sheet_runs json_parse w r :
  r ∈ rows render -> AppState.isLoading (state w) = false -> AppState.html (state w) <> "" ->
  exists w', run json_parse w [EditSelector (row_value r); ClickRun] = Some w'
    /\ pending w' = pending w ++ [PendingRun (AppState.html (state w)) (row_value r)]
    /\ AppState.selector (state w') = row_value r.
Proof.
  intros Hr Hl Hh. pose proof (proj1 (Forall_forall _ _) rows_nonempty r Hr) as Hv.
  eexists. split; [simpl; rewrite Hl; reflexivity|]. unfold handleRunSelector. simpl.
  destruct (String.eqb_spec (row_value r) ""); [done|].
  destruct (String.eqb_spec (AppState.html (state w)) ""); done.
Qed.

Lemma cheat_sheet_runs_witness :
  exists w', run Json.parse settled_world [EditSelector "text=Click"; ClickRun] = Some w'
    /\ pending w' = pending settled_world
                    ++ [PendingRun (AppState.html (state settled_world)) "text=Click"]
    /\ AppState.selector (state w') = "text=Click".
Proof.
  apply (cheat_sheet_runs Json.parse settled_world (mk_row 7 "Fuzzy Match" "text=Click"
           ("Finds text matching " +:+ dq +:+ "Click" +:+ dq +:+ " partially")));
    [vm_compute; right; do 6 right; left|reflexivity|vm_compute; discriminate].
Defined.

End CheatSheet.
