(* ===== verification/Page.v ===== *)
(** * The whole page of [src/App.tsx] (lines 62-246)

    The page [App] returns: the header (title, subtitle and the two
    links, lines 64-84), the main column with the controls and the
    workspace ([View.controls]) beside the results panel
    ([View.results_panel]), the sidebar [<CheatSheet />]
    ([CheatSheet.render], line 232) and the status bar (lines 235-244),
    whose middle text is [{state.html.length.toLocaleString()} chars]:
    the length in UTF-16 code units ([JsValue.utf16_length]).

    [Number.prototype.toLocaleString] formats with the default locale of
    the browser. The model takes the locales that group the digits of an
    integer by three from the right, with a separator [sep] that is not
    a digit (",", ".", a space...): en-US writes [12,345]. The whole
    render is one React tree, so a child that throws anywhere blanks the
    page: [page] is [None] exactly when a part is. *)

From S2P Require Import Prelude JsValue Json Types GeminiService App View CheatSheet.
From Stdlib Require Import Ascii.

Module Page.
Import GeminiService App View.

(** ** Grouping the digits of a count *)

Section locale.
Variable sep : ascii.

(** The digits reversed, with [sep] after every third one that is not
    the last. *)
Fixpoint group_rev (l : list ascii) : list ascii :=
  match l with
  | a :: b :: c :: ((_ :: _) as r) => a :: b :: c :: sep :: group_rev r
  | _ => l
  end.

(** [n.toLocaleString()] for an integer [n >= 0]: the digits of
    Number::toString, grouped by three from the right. *)
Definition to_locale_string (n : nat) : string :=
  String.string_of_list_ascii
    (rev (group_rev (rev (String.list_ascii_of_string (number_to_string (Z.of_nat n)))))).

(** ** The parts of the page *)

Record Header := mk_header {
  title : list string;
  subtitle : string;
  links : list string
}.

(** Lines 64-84: the [h1] with its two text nodes, the subtitle and the
    targets of the two links. *)
Definition header : Header :=
  mk_header ["DrissionPage "; "Playground"] "Web Automation Locator Tester"
    ["https://www.drissionpage.cn/"; "https://github.com/g1879/DrissionPage"].

Record Footer := mk_footer {
  engine_status : string;
  html_chars : list string;
  powered_by : list string
}.

(** Lines 235-244: the text nodes of the status bar. *)
Definition footer (st : AppState.t) : Footer :=
  mk_footer " Gemini Engine Online"
    [" "; to_locale_string (utf16_length (AppState.html st)); " chars"]
    ["Powered by "; "@google/genai"].

Record Page := mk_page {
  page_header : Header;
  page_controls : Controls;
  page_results : Panel;
  page_sidebar : CheatSheet.panel;
  page_footer : Footer
}.

(** The tree [App] returns for the state: blank ([None]) when the
    results panel throws, the only part that renders values of the
    model's reply. *)
Definition page (st : AppState.t) : option Page :=
  p ← results_panel st;
  Some (mk_page header (controls st) p CheatSheet.render (footer st)).

End locale.

(** ** The model honouring its schema *)

(** The model honours the schema when its reply, whenever its text is a
    JSON text, conforms to [responseSchema]. *)
Definition honours_schema (r : Reply) : Prop :=
  match r with
  | Resolved (Some s) => forall v, Json.parse s = Some v -> conforms responseSchema v = true
  | _ => True
  end.

(** An event in which the reply to a locator request honours the schema;
    fetch replies are pages, on which nothing is assumed. *)
Definition honest_event (w : World) (e : Event) : Prop :=
  match e with
  | Settle i r =>
      match pending w !! i with
      | Some (PendingRun _ _) => honours_schema r
      | _ => True
      end
  | _ => True
  end.

(** The worlds reachable from the mount when every locator reply honours
    the schema. *)
Inductive reachable_honest : World -> Prop :=
  | honest_mounted : reachable_honest mounted
  | honest_step w e w' :
      reachable_honest w -> honest_event w e -> step Json.parse w e = Some w' ->
      reachable_honest w'.

(** Every result the state holds can be shown. *)
Definition results_typed (w : World) : Prop :=
  forall r, AppState.result (state w) = Some r -> typed_result r.

(** The world once the locator run of the mount has settled with the
    reply of the specification's scenario. *)
Definition scenario_world : World :=
  default mounted (step Json.parse mounted (Settle 0 (Resolved (Some scenario_text)))).

(** ** The page renders while the model honours its schema *)

Lemma reshape_result_typed raw selector :
  conforms responseSchema raw = true ->
  exists r, reshape_result raw selector = inr r /\ typed_result r.
Proof.
  intros H. field H "elements" (SArray elementSchema) els He Hce.
  field H "count" SNumber c Hc Hcc. field H "selectorUsed" SString su Hs Hcs.
  destruct els as [| | | | |vs|]; try discriminate. destruct c; try discriminate.
  destruct (reshape_elements_conforming vs Hce) as (ys & Hys & Hall).
  unfold reshape_result. simpl. rewrite He. simpl. rewrite Hys, Hc, Hs. simpl.
  eexists. split; [reflexivity|]. split; [done|].
  unfold js_or. destruct (truthy (JNum n)); by eexists.
Qed.

(** Whatever the reply, [processSelector] returns a result the panel can
    show when the reply honours the schema. *)
Lemma processSelector_typed html selector r :
  honours_schema r -> typed_result (processSelector Json.parse html selector r).
Proof.
  assert (typed_result (error_result selector)) as Herr by (split; [done|by eexists]).
  unfold processSelector, processSelector_try.
  destruct r as [|[t|]]; intros Hr; [exact Herr| |by simpl; split; [done|eexists]].
  unfold text_or. destruct (String.eqb_spec t ""); [by simpl; split; [done|eexists]|].
  destruct (Json.parse t) as [v|] eqn:Hp; [|exact Herr].
  by destruct (reshape_result_typed v selector (Hr v Hp)) as (r & -> & Hr').
Qed.

Lemma step_results_typed w e w' :
  results_typed w -> honest_event w e -> step Json.parse w e = Some w' -> results_typed w'.
Proof.
  unfold results_typed. intros Hw He Hs.
  destruct (step_result _ _ _ _ Hs) as [-> | (i & h & s & r & -> & Hp & ->)]; [apply Hw|].
  simpl in He. rewrite Hp in He. intros r' [= <-]. by apply processSelector_typed.
Qed.

(** A world whose result can be shown renders the whole page. *)
Lemma page_Some sep w : results_typed w -> is_Some (page sep (state w)).
Proof.
  intros Hw. unfold page. destruct (results_panel_Some (state w)) as [p ->]; [done|by eexists].
Qed.

Lemma honest_results_typed w : reachable_honest w -> results_typed w.
Proof. induction 1 as [|w e w' _ IH He Hs]; [done|]. by eapply step_results_typed. Qed.

(** C26 (safety): while the model honours its schema, the page never
    goes blank: in every world reachable from the mount in which each
    locator reply whose text is JSON conforms to [responseSchema], the
    whole page renders, whatever the order of events and the fetch
    replies. C19 shows the blank page of a reply that does not. *)
Theorem page_renders_honest sep w : reachable_honest w -> is_Some (page sep (state w)).
Proof. intros Hw. by apply page_Some, honest_results_typed. Qed.

(** ** Witnesses *)

(** en-US writes [1234567] as [1,234,567]. *)
Example to_locale_string_en_US : to_locale_string "," 1234567 = "1,234,567".
Proof. vm_compute. reflexivity. Qed.

(** The sample page holds one character outside ASCII, the copyright
    sign: two bytes of UTF-8, one code unit of [html.length]. *)
Example footer_initial_units :
  utf16_length (AppState.html initial_state) + 1 = String.length (AppState.html initial_state).
Proof. vm_compute. reflexivity. Qed.

(** The scenario reply honours the schema; the page renders after it. *)
Lemma page_renders_honest_witness :
  reachable_honest scenario_world /\ is_Some (page "," (state scenario_world)).
Proof.
  assert (reachable_honest scenario_world) as Hw.
  { apply (honest_step mounted (Settle 0 (Resolved (Some scenario_text)))).
    - constructor.
    - simpl. intros v Hv. vm_compute in Hv. injection Hv as <-. vm_compute. reflexivity.
    - vm_compute. reflexivity. }
  split; [exact Hw|]. apply (page_renders_honest "," scenario_world Hw).
Defined.

End Page.
