(* ===== verification/EndToEnd.v ===== *)
(** * The page from the mount to the model's answer

    The components composed: the mount of [App] starts the locator run
    of the initial state; the model answers; [processSelector] parses and
    reshapes the answer ([GeminiService], [Json]); the run's [resume]
    stores the result ([App]); the page renders it ([View], [Page]).
    The theorem follows the whole path: an answer that is the JSON text
    of elements is shown as exactly those elements, card by card. *)

From S2P Require Import Prelude JsValue JsObject Json JsonText Types GeminiService App View CheatSheet Page.
From Stdlib Require Import Ascii.

Module EndToEnd.
Import GeminiService App View Page.

(** The panel of a result whose elements are [els] and whose count is
    [n]: the badge, and one card per element or "No matches found". *)
Definition expected_panel (els : list ExtractedElement.t) (n : Z) : Panel :=
  mk_panel (Some [number_to_string n; " Matches"])
    (match els with [] => NoMatches | _ => Cards (cards_of 0 els) end).

(** ** Lemmas *)

Lemma mounted_eq :
  mounted = mk_world (set_isLoading true initial_state) [PendingRun initial_html "@id=container"].
Proof. reflexivity. Qed.

(** ** Theorems *)

(** C29 (functional): when the model answers the locator run of the
    mount with the JSON text of elements, as the schema describes them
    (distinct attribute names, none ["__proto__"], a count a double
    holds exactly), the page shows the badge with the count (the number
    of elements when the model's count is [0]) and one card per element,
    in order, with its tag, number, text, attributes and HTML. *)
Theorem mount_shows_elements sep els count su txt :
  Forall plain_attributes els -> (Z.abs count <= Json.max_safe)%Z ->
  JsonText.stringify (encode_response els count su) = Some txt ->
  exists w, step Json.parse mounted (Settle 0 (Resolved (Some txt))) = Some w
    /\ exists p, page sep (state w) = Some p
    /\ page_results p
       = expected_panel els (if (count =? 0)%Z then Z.of_nat (length els) else count).
Proof.
  intros Hplain Hc Hs.
  destruct (reshape_encode_response els count su "@id=container" Hplain) as (r & Hr & Hty & Hcount & _).
  apply map_Some_Forall2 in Hty.
  rewrite mounted_eq. eexists. split; [reflexivity|].
  unfold page, results_panel. cbn [state resume]. simpl AppState.result.
  rewrite (processSelector_stringified _ _ _ _ _ _ Hc Hs), Hr. simpl. rewrite Hcount. simpl.
  pose proof (render_cards_typed_eq 0 _ _ Hty) as Hcards.
  destruct (ProcessingResult.elements r) as [|ev evs]; inversion Hty; subst.
  - eexists. split; reflexivity.
  - change (render_card 0 ev ≫= (fun c => render_cards 1 evs ≫= fun cs => Some (c :: cs)))
      with (render_cards 0 (ev :: evs)).
    rewrite Hcards. eexists. split; reflexivity.
Qed.

(** ** Witnesses *)

(** The scenario's element, answered to the mount's run, is shown as
    one card. *)
Lemma mount_shows_elements_witness :
  (Forall plain_attributes [scenario_element] /\ (Z.abs 1 <= Json.max_safe)%Z
   /\ JsonText.stringify (encode_response [scenario_element] 1 "@id=a") = Some scenario_text)
  /\ exists w, step Json.parse mounted (Settle 0 (Resolved (Some scenario_text))) = Some w
    /\ exists p, page "," (state w) = Some p
    /\ page_results p = expected_panel [scenario_element] 1.
Proof.
  assert (Forall plain_attributes [scenario_element] /\ (Z.abs 1 <= Json.max_safe)%Z
          /\ JsonText.stringify (encode_response [scenario_element] 1 "@id=a") = Some scenario_text)
    as (Hp & Hc & Hs).
  { split_and!.
    - apply (bool_decide_unpack (Forall plain_attributes [scenario_element])). vm_compute. exact I.
    - unfold Json.max_safe. lia.
    - vm_compute. reflexivity. }
  split; [done|]. apply (mount_shows_elements "," [scenario_element] 1 "@id=a" scenario_text Hp Hc Hs).
Defined.

End EndToEnd.
